(** * Blueprint editor: node injection, canvas state machine and layout geometry

    A shallow embedding of the graph editor of the repository:
    - [types.ts]: [BlueprintNode] and [Connection];
    - [components/ChatInterface.tsx], [handleSend]: turning the parsed node
      descriptors into nodes appended to the shared node collection;
    - [components/BlueprintCanvas.tsx]: the pointer handlers, [deleteNode],
      the pin position and bezier path helpers and the connection render pass;
    - [App.tsx]: the initial (empty) collections.

    Modelling conventions.
    - A JavaScript [number] is a rational ([Q]); arithmetic is exact and
      numeric equalities are stated with [==].  The source computes in
      binary64, so a statement about numbers either gives the expression the
      source evaluates, or is an order fact that rounding preserves, or is
      restricted to integer coordinates of magnitude at most [2^50], on which
      the sums, differences and halvings involved are exact.
    - A JavaScript [string] is a [string]; [===] on strings is [String.eqb].
    - [T | null] is [option T]; the truthiness test of the source is kept
      (an empty string is falsy, an object or an array is truthy).
    - React state is threaded explicitly: a handler is a function from the
      state it closes over to the state after its setters have run.  Every
      handler runs on the state of the latest render, so the collection a
      handler reads and the [prev] its functional update receives coincide.
    - [Date.now()] is an input of the handler that calls it. *)

From Stdlib Require Import List String Ascii Bool Arith ZArith QArith Qabs Lia Lqa.
From Stdlib Require Import Decimal DecimalString DecimalPos DecimalZ.
Import ListNotations.

Local Open Scope string_scope.
Local Open Scope Q_scope.

(** ** JavaScript helpers *)

Module JS.

(** [`${n}`] for an integral number: decimal digits, ["-"] in front of a
    negative one. *)
Definition numberToString (z : Z) : string :=
  NilZero.string_of_int (Z.to_int z).

(** An array index as a [number]. *)
Definition ofIndex (i : nat) : Q := inject_Z (Z.of_nat i).

(** Truthiness of the values the source tests or defaults with [||]. *)
Class Truthy (A : Type) := truthy : A -> bool.

#[global] Instance truthy_string : Truthy string :=
  fun s => negb (String.eqb s "").

#[global] Instance truthy_array {A : Type} : Truthy (list A) :=
  fun _ => true.

#[global] Instance truthy_nullable {A : Type} `{Truthy A} : Truthy (option A) :=
  fun o => match o with Some a => truthy a | None => false end.

(** [v || d], where [None] stands for a missing ([undefined]) or [null]
    field. *)
Definition orElse {A : Type} `{Truthy A} (v : option A) (d : A) : A :=
  match v with
  | Some a => if truthy a then a else d
  | None => d
  end.

(** A nullable value in a condition: [None] when it is null or falsy. *)
Definition whenTruthy {A : Type} `{Truthy A} (v : option A) : option A :=
  if truthy v then v else None.

(** [arr.map((a, idx) => f a idx)]. *)
Fixpoint mapFrom {A B : Type} (f : A -> nat -> B) (start : nat) (l : list A)
  : list B :=
  match l with
  | [] => []
  | a :: l' => f a start :: mapFrom f (S start) l'
  end.

Definition mapi {A B : Type} (f : A -> nat -> B) (l : list A) : list B :=
  mapFrom f 0%nat l.

(** [arr.indexOf(s)]: position of the first element equal to [s], or [-1]. *)
Fixpoint indexOfFrom (start : Z) (l : list string) (s : string) : Z :=
  match l with
  | [] => (-1)%Z
  | a :: l' => if String.eqb a s then start else indexOfFrom (start + 1)%Z l' s
  end.

Definition indexOf (l : list string) (s : string) : Z := indexOfFrom 0%Z l s.

(** The line feed and the double quote. *)
Definition nl : string := String "010"%char EmptyString.
Definition dq : string := String "034"%char EmptyString.

(** [`${v}`] for a string that may be [undefined]. *)
Definition interpolate (v : option string) : string :=
  match v with
  | Some str => str
  | None => "undefined"
  end.

(** The result of awaiting a promise inside [try]: a value, or a thrown
    error. *)
Inductive Outcome (A : Type) : Type :=
| Returned (a : A)
| Thrown.
Arguments Returned {A} a.
Arguments Thrown {A}.

(** [s.split(sep)] for a one-character separator. *)
Fixpoint split (sep : ascii) (s : string) : list string :=
  match s with
  | EmptyString => [EmptyString]
  | String c s' =>
      if Ascii.eqb c sep then EmptyString :: split sep s'
      else match split sep s' with
           | h :: t => String c h :: t
           | [] => [String c EmptyString]
           end
  end.

(** [s] without its prefix [p], when it starts with [p]. *)
Fixpoint stripPrefix (p s : string) : option string :=
  match p, s with
  | EmptyString, _ => Some s
  | String a p', String b s' =>
      if Ascii.eqb a b then stripPrefix p' s' else None
  | String _ _, EmptyString => None
  end.

(** The text before and after the leftmost occurrence of [pat] in [s]. *)
Fixpoint splitAtFirst (pat s : string) {struct s} : option (string * string) :=
  match stripPrefix pat s with
  | Some rest => Some (EmptyString, rest)
  | None =>
      match s with
      | EmptyString => None
      | String c s' =>
          match splitAtFirst pat s' with
          | Some (before, after) => Some (String c before, after)
          | None => None
          end
      end
  end.

End JS.

Import JS.

(** ** types.ts *)

Module Node.
Record t : Type := mk
  { id : string;
    name : string;
    type : string;
    x : Q;
    y : Q;
    inputs : list string;
    outputs : list string }.
End Node.
Definition BlueprintNode : Type := Node.t.

Module Conn.
Record t : Type := mk
  { id : string;
    fromNodeId : string;
    fromPin : string;
    toNodeId : string;
    toPin : string }.
End Conn.
Definition Connection : Type := Conn.t.

(** ** services/geminiService.ts *)

Module GeminiService.

Definition BLUEPRINT_SYSTEM_INSTRUCTION : string :=
  "
You are an expert Unreal Engine 5.4 Blueprint Developer and Technical Artist.
Your goal is to assist users in designing gameplay logic using Blueprints.

GUIDELINES:
1. When a user asks for a specific functionality (e.g., " ++ dq
  ++ "Make a double jump" ++ dq
  ++ "), explain the logic clearly.
2. YOU MUST identifying the specific Blueprint Nodes required (e.g., " ++ dq
  ++ "Event Jump" ++ dq
  ++ ", " ++ dq
  ++ "Launch Character" ++ dq
  ++ ", " ++ dq
  ++ "Branch" ++ dq
  ++ ").
3. If the user's request involves designing a system, output a JSON block at the end of your response to visualize the nodes.
   The JSON should follow this schema strictly inside a markdown code block labelled 'json':
   {
     " ++ dq
  ++ "nodes" ++ dq
  ++ ": [
       { " ++ dq
  ++ "name" ++ dq
  ++ ": " ++ dq
  ++ "Node Name" ++ dq
  ++ ", " ++ dq
  ++ "type" ++ dq
  ++ ": " ++ dq
  ++ "function" ++ dq
  ++ ", " ++ dq
  ++ "inputs" ++ dq
  ++ ": [" ++ dq
  ++ "In" ++ dq
  ++ "], " ++ dq
  ++ "outputs" ++ dq
  ++ ": [" ++ dq
  ++ "Out" ++ dq
  ++ "] }
     ]
   }
   Node types: 'event', 'function', 'variable', 'macro'.
4. Use " ++ dq
  ++ "gemini-3-pro-preview" ++ dq
  ++ " for deep thinking and complex logic.
5. Be precise with UE5.4 terminology (e.g., " ++ dq
  ++ "Enhanced Input" ++ dq
  ++ " vs legacy input).
".

(** [data] is [None] when the field holds [undefined]. *)
Record InlineData : Type := mkInlineData
  { data : option string; mimeType : string }.

(** A part of a request or of a response: an object with an optional
    [inlineData] and an optional [text]. *)
Record Part : Type := mkPart
  { inlineData : option InlineData; text : option string }.

Inductive Tool : Type :=
| googleSearch.

Record ImageConfig : Type := mkImageConfig
  { aspectRatio : string; imageSize : string }.

(** The [config] object: each field is present or absent. *)
Record Config : Type := mkConfig
  { systemInstruction : option string;
    tools : option (list Tool);
    thinkingBudget : option Z;
    imageConfig : option ImageConfig }.

(** The argument of [ai.models.generateContent]. *)
Record Request : Type := mkRequest
  { model : string;
    role : option string;
    parts : list Part;
    config : Config }.

Record WebSource : Type := mkWebSource { uri : option string }.

Record GroundingChunk : Type := mkGroundingChunk { web : option WebSource }.

Record Candidate : Type := mkCandidate
  { content : option (list Part);
    groundingChunks : option (list GroundingChunk) }.

(** [response.text] and [response.candidates]; [content] stands for
    [content?.parts] and [groundingChunks] for
    [groundingMetadata?.groundingChunks]. *)
Record Response : Type := mkResponse
  { responseText : option string; candidates : option (list Candidate) }.

(** [response.candidates?.[0]]. *)
Definition firstCandidate (r : Response) : option Candidate :=
  match candidates r with
  | Some (c :: _) => Some c
  | _ => None
  end.

(** The request of [sendMessageToGemini]. *)
Definition chatRequest (prompt : string) (history : list string)
  (imageAttachment : option InlineData) (useSearch : bool) : Request :=
  let modelId := if useSearch then "gemini-2.5-flash"
                 else "gemini-3-pro-preview" in
  let config :=
    if useSearch
    then {| systemInstruction := Some BLUEPRINT_SYSTEM_INSTRUCTION;
            tools := Some [googleSearch];
            thinkingBudget := None;
            imageConfig := None |}
    else {| systemInstruction := Some BLUEPRINT_SYSTEM_INSTRUCTION;
            tools := None;
            thinkingBudget := Some 32768%Z;
            imageConfig := None |} in
  let imageParts :=
    match imageAttachment with
    | Some a => [{| inlineData := Some {| data := data a;
                                          mimeType := mimeType a |};
                    text := None |}]
    | None => []
    end in
  {| model := modelId;
     role := Some "user";
     parts := (imageParts ++ [{| inlineData := None; text := Some prompt |}])%list;
     config := config |}.

(** [chunks.map(c => c.web?.uri).filter(uri => uri)
      .map(uri => `\nSource: ${uri}`).join('')]. *)
Definition sourceLinks (chunks : list GroundingChunk) : string :=
  String.concat ""
    (map (fun u => nl ++ "Source: " ++ match u with Some u' => u' | None => "" end)
       (filter (fun u => truthy u)
          (map (fun c => match web c with Some w => uri w | None => None end)
             chunks))).

(** What [sendMessageToGemini] returns for a response. *)
Definition replyText (r : Response) : string :=
  let finalText := orElse (responseText r) "" in
  match firstCandidate r with
  | Some c =>
      match groundingChunks c with
      | Some chunks =>
          let links := sourceLinks chunks in
          if truthy links then finalText ++ nl ++ nl ++ links else finalText
      | None => finalText
      end
  | None => finalText
  end.

(** [generateContent] is the call to the model. *)
Definition sendMessageToGemini (generateContent : Request -> Outcome Response)
  (prompt : string) (history : list string)
  (imageAttachment : option InlineData) (useSearch : bool) : string :=
  match generateContent (chatRequest prompt history imageAttachment useSearch)
  with
  | Returned response => replyText response
  | Thrown =>
      "I encountered an error processing your request. Please try again."
  end.

(** The request of [generateBlueprintImage]; [aspectRatio] is the value of
    the [AspectRatio] enum. *)
Definition imageRequest (prompt aspectRatio : string) : Request :=
  {| model := "gemini-3-pro-image-preview";
     role := None;
     parts := [{| inlineData := None; text := Some prompt |}];
     config := {| systemInstruction := None;
                  tools := None;
                  thinkingBudget := None;
                  imageConfig := Some {| aspectRatio := aspectRatio;
                                         imageSize := "1K" |} |} |}.

(** The loop over the parts of the first candidate. *)
Fixpoint firstInlineImage (ps : list Part) : option string :=
  match ps with
  | [] => None
  | part :: ps' =>
      match inlineData part with
      | Some d => Some ("data:image/png;base64," ++ interpolate (data d))
      | None => firstInlineImage ps'
      end
  end.

Definition generateBlueprintImage
  (generateContent : Request -> Outcome Response)
  (prompt aspectRatio : string) : Outcome (option string) :=
  match generateContent (imageRequest prompt aspectRatio) with
  | Returned response =>
      Returned
        (firstInlineImage
           (match firstCandidate response with
            | Some c => match content c with Some ps => ps | None => [] end
            | None => []
            end))
  | Thrown => Thrown
  end.

End GeminiService.

(** ** ChatInterface.tsx: node injection in [handleSend] *)

Module ChatInterface.

(** An element of [parsed.nodes]: an object with a [name] and the optional
    fields [type], [inputs] and [outputs] (absent or [null] is [None]). *)
Record Descriptor : Type := mkDescriptor
  { d_name : string;
    d_type : option string;
    d_inputs : option (list string);
    d_outputs : option (list string) }.

(** The callback of [parsed.nodes.map]; [now] is what [Date.now()] returns
    during this call. *)
Definition newNode (now : Z) (n : Descriptor) (idx : nat) : BlueprintNode :=
  {| Node.id := "node-" ++ numberToString now ++ "-"
                  ++ numberToString (Z.of_nat idx);
     Node.name := d_name n;
     Node.type := orElse (d_type n) "function";
     Node.inputs := orElse (d_inputs n) [];
     Node.outputs := orElse (d_outputs n) [];
     Node.x := 100 + (ofIndex idx * 250);
     Node.y := 100 + ofIndex (idx mod 2) * 100 |}.

(** [newNodes]; [clock idx] is the reading of [Date.now()] in the call for
    index [idx]. *)
Definition newNodes (clock : nat -> Z) (descriptors : list Descriptor)
  : list BlueprintNode :=
  mapi (fun n idx => newNode (clock idx) n idx) descriptors.

(** [setNodes(prev => [...prev, ...newNodes])]. *)
Definition injectNodes (clock : nat -> Z) (descriptors : list Descriptor)
  (prev : list BlueprintNode) : list BlueprintNode :=
  (prev ++ newNodes clock descriptors)%list.

(** *** Attachments and messages *)

Inductive Sender : Type :=
| USER
| BOT.

(** [attachment.data] is [undefined] ([None]) when the data URL read from
    the file has no comma. *)
Record Attachment : Type := mkAttachment
  { a_data : option string; a_mimeType : string }.

Record Message : Type := mkMessage
  { m_id : string;
    m_text : string;
    m_sender : Sender;
    m_timestamp : Z;
    m_attachment : option Attachment }.

(** [reader.onloadend] of [handleFileUpload]: [result] is [reader.result],
    [fileType] is [file.type]. *)
Definition onloadend (result fileType : string) : Attachment :=
  {| a_data := nth_error (split ","%char result) 1;
     a_mimeType := fileType |}.

(** The [src] of the image rendered for a message attachment; an undefined
    [data] interpolates as ["undefined"]. *)
Definition attachmentSrc (a : Attachment) : string :=
  "data:" ++ a_mimeType a ++ ";base64," ++ interpolate (a_data a).

(** The image sent along with the user message in [handleSend]. *)
Definition imageAttachment (attachment : option Attachment)
  : option GeminiService.InlineData :=
  match attachment with
  | Some a =>
      Some {| GeminiService.data := a_data a;
              GeminiService.mimeType := a_mimeType a |}
  | None => None
  end.

(** [responseText.match(/```json\n([\s\S]*?)\n```/)], group 1: the text
    between the leftmost opening fence and the first closing fence after
    it. *)
Definition fenceOpen : string := "```json" ++ nl.
Definition fenceClose : string := nl ++ "```".

Definition matchJsonFence (responseText : string) : option string :=
  match splitAtFirst fenceOpen responseText with
  | Some (_, rest) =>
      match splitAtFirst fenceClose rest with
      | Some (body, _) => Some body
      | None => None
      end
  | None => None
  end.

(** The text handed to [JSON.parse]: the match must exist and its group be
    truthy. *)
Definition jsonToParse (responseText : string) : option string :=
  whenTruthy (matchJsonFence responseText).

(** *** [handleSend]

    The state cells it reads and writes; the node collection is the shared
    one it reaches through [setNodes]. *)
Record ChatState : Type := mkChatState
  { input : string;
    chatMessages : list Message;
    isLoading : bool;
    attachment : option Attachment }.

(** The values of the [Sender] enum. *)
Definition senderValue (s : Sender) : string :=
  match s with
  | USER => "user"
  | BOT => "bot"
  end.

(** [trim] is [String.prototype.trim].  [parseNodes] stands for
    [JSON.parse] followed by the test [parsed.nodes &&
    Array.isArray(parsed.nodes)]: [Thrown] when parsing or reading the nodes
    throws, [Returned None] when there is no nodes array.  [nowUser],
    [dateUser], [nowBot] and [dateBot] are the clock readings for the two
    messages, [clock] the ones for the node ids. *)
Definition handleSend (trim : string -> string)
  (generateContent : GeminiService.Request -> Outcome GeminiService.Response)
  (parseNodes : string -> Outcome (option (list Descriptor)))
  (useSearch : bool) (nowUser dateUser : Z) (clock : nat -> Z)
  (nowBot dateBot : Z) (st : ChatState) (nodes : list BlueprintNode)
  : ChatState * list BlueprintNode :=
  if (negb (truthy (trim (input st)))
      && negb (match attachment st with Some _ => true | None => false end))
     || isLoading st
  then (st, nodes)
  else
    let userMsg :=
      {| m_id := numberToString nowUser;
         m_text := input st;
         m_sender := USER;
         m_timestamp := dateUser;
         m_attachment := attachment st |} in
    let history :=
      map (fun m => senderValue (m_sender m) ++ ": " ++ m_text m)
        (chatMessages st) in
    let responseText :=
      GeminiService.sendMessageToGemini generateContent (m_text userMsg)
        history (imageAttachment (m_attachment userMsg)) useSearch in
    let nodes' :=
      match jsonToParse responseText with
      | Some json =>
          match parseNodes json with
          | Returned (Some ds) => injectNodes clock ds nodes
          | _ => nodes
          end
      | None => nodes
      end in
    let botMsg :=
      {| m_id := numberToString (nowBot + 1);
         m_text := responseText;
         m_sender := BOT;
         m_timestamp := dateBot;
         m_attachment := None |} in
    ({| input := "";
        chatMessages := (chatMessages st ++ [userMsg; botMsg])%list;
        isLoading := false;
        attachment := None |},
     nodes').

(** *** [handleGenerateImage] after its guard *)

Record ImageState : Type := mkImageState
  { messages : list Message;
    generatedImage : option string;
    isGeneratingImage : bool }.

(** [outcome] is what awaiting [generateBlueprintImage] gives; [now] is
    [Date.now()] and [date] is [new Date()] when the message is built. *)
Definition handleGenerateImage (input : string)
  (outcome : Outcome (option string)) (now date : Z) (st : ImageState)
  : ImageState :=
  match outcome with
  | Returned base64Image =>
      match whenTruthy base64Image with
      | Some url =>
          {| messages :=
               (messages st
                  ++ [{| m_id := numberToString now;
                         m_text := "Generated asset for: " ++ dq ++ input ++ dq;
                         m_sender := BOT;
                         m_timestamp := date;
                         m_attachment :=
                           Some {| a_data := nth_error (split ","%char url) 1;
                                   a_mimeType := "image/png" |} |}])%list;
             generatedImage := Some url;
             isGeneratingImage := false |}
      | None =>
          {| messages := messages st;
             generatedImage := None;
             isGeneratingImage := false |}
      end
  | Thrown =>
      {| messages :=
           (messages st
              ++ [{| m_id := numberToString now;
                     m_text := "Failed to generate image. Please try again.";
                     m_sender := BOT;
                     m_timestamp := date;
                     m_attachment := None |}])%list;
         generatedImage := None;
         isGeneratingImage := false |}
  end.

End ChatInterface.

(** ** BlueprintCanvas.tsx *)

Module BlueprintCanvas.

Definition NODE_WIDTH : Q := 160.
Definition HEADER_HEIGHT : Q := 28.
Definition BODY_PADDING : Q := 8.
Definition PIN_ROW_HEIGHT : Q := 20.
Definition PIN_GAP : Q := 4.
Definition PIN_OFFSET_Y : Q := 10.
Definition PIN_OFFSET_X : Q := 12.

Record Point : Type := mkPoint { px : Q; py : Q }.

Record Drawing : Type := mkDrawing
  { startNodeId : string;
    startPin : string;
    isInput : bool;
    startX : Q;
    startY : Q;
    currX : Q;
    currY : Q }.

(** The props [nodes] and [connections] (state of [App]) and the three
    state cells of the canvas. *)
Record State : Type := mkState
  { nodes : list BlueprintNode;
    connections : list Connection;
    selectedNode : option string;
    dragOffset : option Point;
    drawingConnection : option Drawing }.

(** [App.tsx]: both collections start empty; nothing is selected or drawn. *)
Definition initial : State :=
  {| nodes := [];
     connections := [];
     selectedNode := None;
     dragOffset := None;
     drawingConnection := None |}.

Definition setNodes (f : list BlueprintNode -> list BlueprintNode) (s : State)
  : State :=
  {| nodes := f (nodes s);
     connections := connections s;
     selectedNode := selectedNode s;
     dragOffset := dragOffset s;
     drawingConnection := drawingConnection s |}.

Definition setConnections (f : list Connection -> list Connection) (s : State)
  : State :=
  {| nodes := nodes s;
     connections := f (connections s);
     selectedNode := selectedNode s;
     dragOffset := dragOffset s;
     drawingConnection := drawingConnection s |}.

Definition setSelectedNode (v : option string) (s : State) : State :=
  {| nodes := nodes s;
     connections := connections s;
     selectedNode := v;
     dragOffset := dragOffset s;
     drawingConnection := drawingConnection s |}.

Definition setDragOffset (v : option Point) (s : State) : State :=
  {| nodes := nodes s;
     connections := connections s;
     selectedNode := selectedNode s;
     dragOffset := v;
     drawingConnection := drawingConnection s |}.

Definition setDrawingConnection (v : option Drawing) (s : State) : State :=
  {| nodes := nodes s;
     connections := connections s;
     selectedNode := selectedNode s;
     dragOffset := dragOffset s;
     drawingConnection := v |}.

(** [nodes.find(n => n.id === id)]. *)
Definition findNode (ns : list BlueprintNode) (id : string)
  : option BlueprintNode :=
  find (fun n => String.eqb (Node.id n) id) ns.

(** *** Coordinate helpers *)

Definition getNodePinPos (node : BlueprintNode) (pinIndex : Q) (isInput : bool)
  : Point :=
  let x := if isInput
           then Node.x node + PIN_OFFSET_X
           else Node.x node + NODE_WIDTH - PIN_OFFSET_X in
  let y := Node.y node + HEADER_HEIGHT + BODY_PADDING
           + (pinIndex * (PIN_ROW_HEIGHT + PIN_GAP)) + PIN_OFFSET_Y in
  {| px := x; py := y |}.

(** *** SVG path generation

    The template literal of [getPathD] is kept as its sequence of literal
    chunks and interpolated numbers. *)

Inductive Chunk : Type :=
| Lit (s : string)
| Num (q : Q).

Definition getPathD (x1 y1 x2 y2 : Q) : list Chunk :=
  let dist := Qabs (x2 - x1) in
  let cp1x := x1 + dist * (1 # 2) in
  let cp2x := x2 - dist * (1 # 2) in
  [Lit "M "; Num x1; Lit " "; Num y1;
   Lit " C "; Num cp1x; Lit " "; Num y1;
   Lit ", "; Num cp2x; Lit " "; Num y2;
   Lit ", "; Num x2; Lit " "; Num y2].

(** What an SVG renderer draws for such a path: [M p0 C c1, c2, p3] is the
    cubic bezier from [p0] to [p3] with control points [c1] and [c2]. *)
Record Cubic : Type := mkCubic
  { p0 : Point; c1 : Point; c2 : Point; p3 : Point }.

Definition cubicOfPath (d : list Chunk) : option Cubic :=
  match d with
  | [Lit "M "; Num ax; Lit " "; Num ay;
     Lit " C "; Num bx; Lit " "; Num b_y;
     Lit ", "; Num cx; Lit " "; Num cy;
     Lit ", "; Num dx; Lit " "; Num dy] =>
      Some {| p0 := mkPoint ax ay; c1 := mkPoint bx b_y;
              c2 := mkPoint cx cy; p3 := mkPoint dx dy |}
  | _ => None
  end.

(** *** Mouse handlers for nodes *)

Definition handleNodeMouseDown (clientX clientY : Q) (id : string) (s : State)
  : State :=
  match findNode (nodes s) id with
  | Some node =>
      setDragOffset
        (Some {| px := clientX - Node.x node; py := clientY - Node.y node |})
        (setSelectedNode (Some id) s)
  | None => s
  end.

(** *** Mouse handlers for pins

    Both call [e.stopPropagation()]: the handlers of the enclosing node and
    of the canvas do not run for the same event. *)

Definition handlePinMouseDown (nodeId pinName : string) (isInput : bool)
  (index : nat) (s : State) : State :=
  match findNode (nodes s) nodeId with
  | None => s
  | Some node =>
      let p := getNodePinPos node (ofIndex index) isInput in
      setDrawingConnection
        (Some {| startNodeId := nodeId;
                 startPin := pinName;
                 isInput := isInput;
                 startX := px p;
                 startY := py p;
                 currX := px p;
                 currY := py p |}) s
  end.

(** The connection [handlePinMouseUp] builds from the pending draw and the
    pin of the release. *)
Definition newConnection (now : Z) (d : Drawing) (nodeId pinName : string)
  (isInput : bool) : Connection :=
  {| Conn.id := "conn-" ++ numberToString now;
     Conn.fromNodeId := if isInput then startNodeId d else nodeId;
     Conn.fromPin := if isInput then startPin d else pinName;
     Conn.toNodeId := if isInput then nodeId else startNodeId d;
     Conn.toPin := if isInput then pinName else startPin d |}.

(** The callback of [connections.some]. *)
Definition sameEnds (c c' : Connection) : bool :=
  String.eqb (Conn.fromNodeId c) (Conn.fromNodeId c')
  && String.eqb (Conn.fromPin c) (Conn.fromPin c')
  && String.eqb (Conn.toNodeId c) (Conn.toNodeId c')
  && String.eqb (Conn.toPin c) (Conn.toPin c').

Definition handlePinMouseUp (now : Z) (nodeId pinName : string)
  (isInput : bool) (s : State) : State :=
  match drawingConnection s with
  | None => s
  | Some d =>
      if String.eqb (startNodeId d) nodeId then setDrawingConnection None s
      else if Bool.eqb (BlueprintCanvas.isInput d) isInput
      then setDrawingConnection None s
      else
        let c := newConnection now d nodeId pinName isInput in
        let exists_ := existsb (fun c' => sameEnds c' c) (connections s) in
        let s' := if negb exists_
                  then setConnections (fun prev => prev ++ [c])%list s
                  else s in
        setDrawingConnection None s'
  end.

(** *** Canvas mouse handlers *)

(** [rect] is [canvasRef.current.getBoundingClientRect()] as (left, top),
    [None] when [canvasRef.current] is null. *)
Definition handleMouseMove (clientX clientY : Q) (rect : option Point)
  (s : State) : State :=
  match whenTruthy (selectedNode s), dragOffset s with
  | Some sel, Some off =>
      setNodes
        (map (fun n =>
                if String.eqb (Node.id n) sel
                then {| Node.id := Node.id n;
                        Node.name := Node.name n;
                        Node.type := Node.type n;
                        Node.x := clientX - px off;
                        Node.y := clientY - py off;
                        Node.inputs := Node.inputs n;
                        Node.outputs := Node.outputs n |}
                else n)) s
  | _, _ =>
      match drawingConnection s, rect with
      | Some prev, Some r =>
          setDrawingConnection
            (Some {| startNodeId := startNodeId prev;
                     startPin := startPin prev;
                     isInput := isInput prev;
                     startX := startX prev;
                     startY := startY prev;
                     currX := clientX - px r;
                     currY := clientY - py r |}) s
      | _, _ => s
      end
  end.

Definition handleMouseUp (s : State) : State :=
  setDrawingConnection None (setDragOffset None (setSelectedNode None s)).

Definition deleteNode (id : string) (s : State) : State :=
  setConnections
    (filter (fun c => negb (String.eqb (Conn.fromNodeId c) id)
                      && negb (String.eqb (Conn.toNodeId c) id)))
    (setNodes (filter (fun n => negb (String.eqb (Node.id n) id))) s).

(** *** Render pass of the connection layer

    The callback of [connections.map] in the SVG layer: [None] is the
    [return null] of a skipped connection. *)
Definition renderConnection (ns : list BlueprintNode) (conn : Connection)
  : option (list Chunk) :=
  match findNode ns (Conn.fromNodeId conn), findNode ns (Conn.toNodeId conn) with
  | Some fromNode, Some toNode =>
      let fromIdx := indexOf (Node.outputs fromNode) (Conn.fromPin conn) in
      let toIdx := indexOf (Node.inputs toNode) (Conn.toPin conn) in
      if (fromIdx =? -1)%Z || (toIdx =? -1)%Z then None
      else
        let start := getNodePinPos fromNode (inject_Z fromIdx) false in
        let end_ := getNodePinPos toNode (inject_Z toIdx) true in
        Some (getPathD (px start) (py start) (px end_) (py end_))
  | _, _ => None
  end.

(** *** Node styling *)

Definition getNodeColor (type : string) : string :=
  if String.eqb type "event" then "border-red-500 bg-red-900/40"
  else if String.eqb type "function" then "border-blue-500 bg-blue-900/40"
  else if String.eqb type "variable"
  then "border-yellow-500 bg-yellow-900/40"
  else if String.eqb type "macro" then "border-gray-400 bg-gray-700/40"
  else "border-blue-500 bg-blue-900/40".

Definition getNodeHeaderColor (type : string) : string :=
  if String.eqb type "event" then "bg-red-600"
  else if String.eqb type "function" then "bg-blue-600"
  else if String.eqb type "variable" then "bg-yellow-600"
  else if String.eqb type "macro" then "bg-gray-500"
  else "bg-blue-600".

(** The dashed line of a pending draw ([None] when nothing is drawn). *)
Definition renderDragLine (s : State) : option (list Chunk) :=
  match drawingConnection s with
  | Some d => Some (getPathD (startX d) (startY d) (currX d) (currY d))
  | None => None
  end.

(** *** The editor as a transition system

    One event per handler invocation.  [Inject] is [handleSend] of the chat
    pane reaching [setNodes] on the shared node collection. *)
Inductive Event : Type :=
| NodeMouseDown (clientX clientY : Q) (id : string)
| PinMouseDown (nodeId pinName : string) (isInput : bool) (index : nat)
| PinMouseUp (now : Z) (nodeId pinName : string) (isInput : bool)
| MouseMove (clientX clientY : Q) (rect : option Point)
| MouseUp
| DeleteNode (id : string)
| Inject (clock : nat -> Z) (descriptors : list ChatInterface.Descriptor).

Definition step (s : State) (e : Event) : State :=
  match e with
  | NodeMouseDown cx cy id => handleNodeMouseDown cx cy id s
  | PinMouseDown nodeId pinName isIn index =>
      handlePinMouseDown nodeId pinName isIn index s
  | PinMouseUp now nodeId pinName isIn =>
      handlePinMouseUp now nodeId pinName isIn s
  | MouseMove cx cy rect => handleMouseMove cx cy rect s
  | MouseUp => handleMouseUp s
  | DeleteNode id => deleteNode id s
  | Inject clock ds => setNodes (ChatInterface.injectNodes clock ds) s
  end.

Definition run (s : State) (es : list Event) : State := fold_left step es s.

Inductive reachable : State -> Prop :=
| reachable_initial : reachable initial
| reachable_step s e : reachable s -> reachable (step s e).

End BlueprintCanvas.

Import BlueprintCanvas.

(** ** Notions used in the statements *)

(** An integer coordinate of magnitude at most [2^50]. *)
Definition pixel (q : Q) : Prop :=
  exists z : Z, q = inject_Z z /\ (Z.abs z <= 2 ^ 50)%Z.

(** The four fields the duplicate test compares. *)
Definition Ends : Type := (string * string * string * string)%type.

Definition ends (c : Connection) : Ends :=
  (Conn.fromNodeId c, Conn.fromPin c, Conn.toNodeId c, Conn.toPin c).

Definition Ends_eq_dec (e e' : Ends) : {e = e'} + {e <> e'}.
Proof.
  repeat decide equality; apply string_dec.
Defined.

(** Number of stored connections with the ends [e]. *)
Definition countEnds (e : Ends) (cs : list Connection) : nat :=
  count_occ Ends_eq_dec (map ends cs) e.

(** What identifies the origin of a pending draw. *)
Definition origin (d : Drawing) : string * string * bool :=
  (startNodeId d, startPin d, isInput d).

(** A pin as the render loop hands it to the pin handlers: the node id, the
    pin name, the direction of the column it is drawn in and its row. *)
Record Pin : Type := mkPin
  { pinNode : string; pinName : string; pinIsInput : bool; pinIndex : nat }.

(** A completed pin-to-pin drag: pointer-down on [a], pointer moves,
    pointer-up on [b] at time [now]. *)
Definition moveEvents (ms : list (Q * Q * option Point)) : list Event :=
  map (fun m => MouseMove (fst (fst m)) (snd (fst m)) (snd m)) ms.

Definition dragBetween (a : Pin) (ms : list (Q * Q * option Point)) (now : Z)
  (b : Pin) (s : State) : State :=
  step
    (run (step s (PinMouseDown (pinNode a) (pinName a) (pinIsInput a)
                    (pinIndex a)))
         (moveEvents ms))
    (PinMouseUp now (pinNode b) (pinName b) (pinIsInput b)).

(** The ends of the connection between two pins of opposite directions:
    the output pin first. *)
Definition normalizedEnds (a b : Pin) : Ends :=
  if pinIsInput b
  then (pinNode a, pinName a, pinNode b, pinName b)
  else (pinNode b, pinName b, pinNode a, pinName a).

(** The non-empty uris of the grounding chunks of the first candidate, in
    order. *)
Definition groundingUris (r : GeminiService.Response) : list string :=
  match GeminiService.firstCandidate r with
  | Some c =>
      match GeminiService.groundingChunks c with
      | Some chunks =>
          flat_map
            (fun ch =>
               match GeminiService.web ch with
               | Some w =>
                   match GeminiService.uri w with
                   | Some u => if String.eqb u "" then [] else [u]
                   | None => []
                   end
               | None => []
               end) chunks
      | None => []
      end
  | None => []
  end.

(** Everything of a node but its origin. *)
Definition shape (n : BlueprintNode)
  : string * string * string * list string * list string :=
  (Node.id n, Node.name n, Node.type n, Node.inputs n, Node.outputs n).

(** Occurrence of a character in a string. *)
Fixpoint occurs (c : ascii) (s : string) : Prop :=
  match s with
  | EmptyString => False
  | String c' s' => c = c' \/ occurs c s'
  end.

(** * Auxiliary facts *)

(** ** Decimal rendering *)

Lemma digits_no_dash (d : uint) :
  ~ occurs "-"%char (NilEmpty.string_of_uint d).
Proof.
  induction d; cbn [NilEmpty.string_of_uint occurs];
    try tauto; intros [H | H]; try discriminate H; tauto.
Qed.

Lemma numberToString_index_no_dash (i : nat) :
  ~ occurs "-"%char (numberToString (Z.of_nat i)).
Proof.
  unfold numberToString. destruct (Z.of_nat i) as [|p|p] eqn:E.
  - cbn. intros [H | []]. discriminate H.
  - cbn [Z.to_int NilZero.string_of_int]. unfold NilZero.string_of_uint.
    destruct (Pos.to_uint p) eqn:Ep;
      try (rewrite <- Ep; apply digits_no_dash).
    cbn. intros [H | []]. discriminate H.
  - lia.
Qed.

Lemma to_int_proper (z : Z) : Z.to_int z <> Pos Nil /\ Z.to_int z <> Neg Nil.
Proof.
  destruct z as [|p|p]; cbn [Z.to_int]; split; try discriminate;
    intros [= H]; exact (Unsigned.to_uint_nonnil p H).
Qed.

Lemma numberToString_inj (z z' : Z) :
  numberToString z = numberToString z' -> z = z'.
Proof.
  unfold numberToString. intros H.
  apply DecimalZ.to_int_inj.
  destruct (to_int_proper z) as [Hp Hn], (to_int_proper z') as [Hp' Hn'].
  pose proof (NilZero.isi _ Hp Hn) as E.
  pose proof (NilZero.isi _ Hp' Hn') as E'.
  rewrite H in E. rewrite E in E'. now injection E'.
Qed.

(** ** Strings *)

Lemma occurs_append (c : ascii) (s t : string) :
  occurs c (s ++ t) <-> occurs c s \/ occurs c t.
Proof.
  induction s as [|a s IH]; cbn [append occurs]; [tauto|].
  rewrite IH. tauto.
Qed.

(** The part after the last ["-"] of a string is determined by the string. *)
Lemma last_dash_suffix (p q a b : string) :
  ~ occurs "-"%char a -> ~ occurs "-"%char b ->
  p ++ "-" ++ a = q ++ "-" ++ b -> p = q /\ a = b.
Proof.
  intros Ha Hb. revert q.
  induction p as [|c p IH]; intros [|c' q]; cbn [append].
  - intros [= E]. now split.
  - intros [= Ec E]. exfalso. apply Ha. rewrite E.
    apply occurs_append. right. cbn. now left.
  - intros [= Ec E]. exfalso. apply Hb. rewrite <- E.
    apply occurs_append. right. cbn. now left.
  - intros [= Ec E]. destruct (IH q E) as [-> ->]. now subst.
Qed.

(** ** Arrays *)

Lemma mapFrom_length {A B : Type} (f : A -> nat -> B) (start : nat)
  (l : list A) : List.length (mapFrom f start l) = List.length l.
Proof.
  revert start. induction l as [|a l IH]; intros start; cbn; [|rewrite IH];
    reflexivity.
Qed.

Lemma mapFrom_nth_error {A B : Type} (f : A -> nat -> B) (start : nat)
  (l : list A) (k : nat) :
  nth_error (mapFrom f start l) k
  = option_map (fun a => f a (start + k)%nat) (nth_error l k).
Proof.
  revert start k. induction l as [|a l IH]; intros start [|k]; cbn;
    try reflexivity.
  - now rewrite Nat.add_0_r.
  - rewrite IH. now rewrite Nat.add_succ_r.
Qed.

Lemma mapFrom_In {A B : Type} (f : A -> nat -> B) (start : nat) (l : list A)
  (b : B) :
  In b (mapFrom f start l) -> exists a i, (start <= i)%nat /\ b = f a i.
Proof.
  revert start. induction l as [|a l IH]; intros start; cbn; [tauto|].
  intros [<- | H].
  - exists a, start. split; [lia | reflexivity].
  - destruct (IH _ H) as (a' & i & Hi & ->). exists a', i. split; [lia|easy].
Qed.

Lemma mapFrom_NoDup {A B K : Type} (f : A -> nat -> B) (key : B -> K)
  (start : nat) (l : list A) :
  (forall a a' i j, key (f a i) = key (f a' j) -> i = j) ->
  NoDup (map key (mapFrom f start l)).
Proof.
  intros Hinj. revert start.
  induction l as [|a l IH]; intros start; cbn; constructor; [|apply IH].
  intros Hin. apply in_map_iff in Hin. destruct Hin as (b & Hk & Hb).
  apply mapFrom_In in Hb. destruct Hb as (a' & i & Hi & ->).
  apply Hinj in Hk. lia.
Qed.

(** ** Lookup and the duplicate test *)

Lemma findNode_Some (ns : list BlueprintNode) (id : string) :
  In id (map Node.id ns) -> exists n, findNode ns id = Some n.
Proof.
  unfold findNode. induction ns as [|n ns IH]; cbn; [tauto|].
  intros [H | H].
  - exists n. now rewrite H, String.eqb_refl.
  - destruct (String.eqb (Node.id n) id); [now exists n | now apply IH].
Qed.

Lemma findNode_None (ns : list BlueprintNode) (id : string) :
  ~ In id (map Node.id ns) -> findNode ns id = None.
Proof.
  unfold findNode. induction ns as [|n ns IH]; cbn; [reflexivity|].
  intros H. destruct (String.eqb_spec (Node.id n) id) as [E | E].
  - exfalso. apply H. now left.
  - apply IH. intros Hin. apply H. now right.
Qed.

Lemma sameEnds_spec (c c' : Connection) :
  sameEnds c c' = true <-> ends c = ends c'.
Proof.
  unfold sameEnds, ends. rewrite !andb_true_iff, !String.eqb_eq. split.
  - intros [[[-> ->] ->] ->]. reflexivity.
  - intros [= -> -> -> ->]. tauto.
Qed.

Lemma stored_spec (c : Connection) (cs : list Connection) :
  existsb (fun c' => sameEnds c' c) cs = true <-> In (ends c) (map ends cs).
Proof.
  rewrite existsb_exists, in_map_iff. split.
  - intros (c' & Hin & H). exists c'. split; [|exact Hin].
    now apply sameEnds_spec.
  - intros (c' & H & Hin). exists c'. split; [exact Hin|].
    now apply sameEnds_spec.
Qed.

(** * Layout geometry *)

(** C3. For every node [N], pin index [i] (in particular every [i >= 0])
    and direction flag, [getNodePinPos] returns [x = N.x + 12] for an input
    pin and [x = N.x + 160 - 12] for an output pin, and
    [y = N.y + 28 + 8 + i * (20 + 4) + 20 / 2].  The result depends on the
    node through its origin only: any other fields give the same point. *)
Theorem getNodePinPos_formula (N : BlueprintNode) (i : Q) (isIn : bool) :
  let nodeWidth := 160 in
  let headerHeight := 28 in
  let topPadding := 8 in
  let rowHeight := 20 in
  let gap := 4 in
  let inset := 12 in
  px (getNodePinPos N i isIn)
    == (if isIn then Node.x N + inset else Node.x N + nodeWidth - inset)
  /\ py (getNodePinPos N i isIn)
    == Node.y N + headerHeight + topPadding + i * (rowHeight + gap)
       + rowHeight / 2
  /\ (forall id' name' type' inputs' outputs',
        getNodePinPos
          (Node.mk id' name' type' (Node.x N) (Node.y N) inputs' outputs')
          i isIn
        = getNodePinPos N i isIn).
Proof.
  cbv zeta. unfold getNodePinPos. cbn [px py].
  unfold PIN_OFFSET_X, PIN_OFFSET_Y, NODE_WIDTH, HEADER_HEIGHT, BODY_PADDING,
    PIN_ROW_HEIGHT, PIN_GAP.
  split; [destruct isIn; reflexivity|].
  split; [field | reflexivity].
Qed.

(** C9. For all endpoints, the path built by [getPathD] is the cubic bezier
    from [(x1, y1)] to [(x2, y2)] whose control points are
    [(x1 + d/2, y1)] and [(x2 - d/2, y2)] with [d = |x2 - x1|]: each control
    point has the y-coordinate of its endpoint. *)
Theorem getPathD_cubic (x1 y1 x2 y2 : Q) :
  let d := Qabs (x2 - x1) in
  exists c : Cubic,
    cubicOfPath (getPathD x1 y1 x2 y2) = Some c
    /\ p0 c = mkPoint x1 y1
    /\ p3 c = mkPoint x2 y2
    /\ px (c1 c) == x1 + d / 2
    /\ py (c1 c) = y1
    /\ px (c2 c) == x2 - d / 2
    /\ py (c2 c) = y2.
Proof.
  intros d. eexists. split; [reflexivity|]. cbn [p0 p3 c1 c2 px py].
  repeat split; reflexivity.
Qed.

(** * Node injection *)

Lemma newNode_id_index (now now' : Z) (n n' : ChatInterface.Descriptor)
  (i j : nat) :
  Node.id (ChatInterface.newNode now n i)
  = Node.id (ChatInterface.newNode now' n' j) ->
  i = j.
Proof.
  cbn [ChatInterface.newNode Node.id]. intros H.
  change ("node-" ++ numberToString now ++ "-"
            ++ numberToString (Z.of_nat i))
    with ("node-" ++ (numberToString now ++ "-"
                        ++ numberToString (Z.of_nat i))) in H.
  cbn [append] in H. injection H as H.
  apply last_dash_suffix in H; try apply numberToString_index_no_dash.
  destruct H as [_ H]. apply numberToString_inj in H. lia.
Qed.

Lemma ofIndex_step_inj (i j : nat) :
  100 + ofIndex i * 250 == 100 + ofIndex j * 250 -> i = j.
Proof.
  intros H. apply Qplus_inj_l in H.
  apply Qmult_inj_r in H; [|discriminate].
  unfold ofIndex in H. rewrite inject_Z_injective in H. lia.
Qed.

(** C6. Injecting a batch of [k] descriptors appends exactly [k] nodes to
    the node collection and leaves the existing nodes and the connections as
    they were; the ids of the new nodes are pairwise distinct; the node at
    batch index [idx] is placed at [x = 100 + idx * 250],
    [y = 100 + (idx mod 2) * 100], so two nodes of a batch never share a
    position. *)
Theorem inject_batch (clock : nat -> Z)
  (ds : list ChatInterface.Descriptor) (s : State) :
  let k := List.length ds in
  let batch := ChatInterface.newNodes clock ds in
  let s' := step s (Inject clock ds) in
  nodes s' = (nodes s ++ batch)%list
  /\ List.length batch = k
  /\ List.length (nodes s') = (List.length (nodes s) + k)%nat
  /\ connections s' = connections s
  /\ NoDup (map Node.id batch)
  /\ (forall idx n, nth_error batch idx = Some n ->
        Node.x n == 100 + ofIndex idx * 250
        /\ Node.y n == 100 + ofIndex (idx mod 2) * 100)
  /\ (forall i j ni nj,
        nth_error batch i = Some ni -> nth_error batch j = Some nj ->
        i <> j ->
        ~ (Node.x ni == Node.x nj /\ Node.y ni == Node.y nj)).
Proof.
  intros k batch s'.
  assert (Hlen : List.length batch = k) by apply mapFrom_length.
  assert (Hpos : forall idx n, nth_error batch idx = Some n ->
            exists d, n = ChatInterface.newNode (clock idx) d idx).
  { intros idx n H. unfold batch, ChatInterface.newNodes, mapi in H.
    rewrite mapFrom_nth_error in H. cbn [Nat.add] in H.
    destruct (nth_error ds idx) as [d|]; [|discriminate H].
    injection H as <-. now exists d. }
  split; [reflexivity|]. split; [exact Hlen|].
  split; [cbn; unfold ChatInterface.injectNodes; rewrite length_app;
          fold batch; now rewrite Hlen|].
  split; [reflexivity|].
  split.
  { apply mapFrom_NoDup. intros a a' i j. apply newNode_id_index. }
  split.
  - intros idx n H. destruct (Hpos _ _ H) as [d ->]. cbn. split; reflexivity.
  - intros i j ni nj Hi Hj Hij [Hx _].
    destruct (Hpos _ _ Hi) as [di ->], (Hpos _ _ Hj) as [dj ->].
    cbn [ChatInterface.newNode Node.x] in Hx.
    apply Hij, ofIndex_step_inj, Hx.
Qed.

(** C10. For the descriptor at index [idx] of a batch, the node created for
    it copies the [name] unchanged; a missing or falsy (empty) [type] becomes
    ["function"] and any other [type] is kept; missing [inputs] or [outputs]
    become the empty list and present ones are kept. *)
Theorem descriptor_defaults (clock : nat -> Z)
  (ds : list ChatInterface.Descriptor) (idx : nat)
  (d : ChatInterface.Descriptor) (H : nth_error ds idx = Some d) :
  exists n : BlueprintNode,
    nth_error (ChatInterface.newNodes clock ds) idx = Some n
    /\ Node.name n = ChatInterface.d_name d
    /\ (ChatInterface.d_type d = None \/ ChatInterface.d_type d = Some ""
        -> Node.type n = "function")
    /\ (forall t, ChatInterface.d_type d = Some t -> t <> ""
        -> Node.type n = t)
    /\ (ChatInterface.d_inputs d = None -> Node.inputs n = [])
    /\ (forall l, ChatInterface.d_inputs d = Some l -> Node.inputs n = l)
    /\ (ChatInterface.d_outputs d = None -> Node.outputs n = [])
    /\ (forall l, ChatInterface.d_outputs d = Some l -> Node.outputs n = l).
Proof.
  exists (ChatInterface.newNode (clock idx) d idx).
  split.
  { unfold ChatInterface.newNodes, mapi. rewrite mapFrom_nth_error, H.
    reflexivity. }
  cbn [ChatInterface.newNode Node.name Node.type Node.inputs Node.outputs].
  split; [reflexivity|].
  split; [intros [-> | ->]; reflexivity|].
  split.
  { intros t -> Ht. cbn. unfold truthy, truthy_string.
    destruct (String.eqb_spec t ""); [contradiction | reflexivity]. }
  repeat split; try (intros ->; reflexivity); intros l ->; reflexivity.
Qed.

(** The first descriptor of a two-element batch has neither [type] nor
    [inputs]; the second has an empty [type]. *)
Lemma descriptor_defaults_witness :
  let ds := [ChatInterface.mkDescriptor "Event Jump" None None (Some ["Out"]);
             ChatInterface.mkDescriptor "Launch Character" (Some "")
               (Some ["In"]) None] in
  exists n : BlueprintNode,
    nth_error (ChatInterface.newNodes (fun _ => 1700000000000%Z) ds) 1
    = Some n
    /\ Node.name n = "Launch Character"
    /\ Node.type n = "function"
    /\ Node.inputs n = ["In"]
    /\ Node.outputs n = [].
Proof.
  intros ds.
  destruct (descriptor_defaults (fun _ => 1700000000000%Z) ds 1
              (ChatInterface.mkDescriptor "Launch Character" (Some "")
                 (Some ["In"]) None) eq_refl)
    as (n & Hn & Hname & Htype & _ & _ & Hin & Hout & _).
  exists n. split; [exact Hn|]. split; [exact Hname|].
  split; [apply Htype; right; reflexivity|].
  split; [apply Hin; reflexivity | apply Hout; reflexivity].
Defined.

(** * Deleting a node *)

Lemma deleteNode_removes_id (X : string) (s : State) :
  ~ In X (map Node.id (nodes (deleteNode X s))).
Proof.
  cbn [deleteNode setConnections setNodes nodes]. intros Hin.
  apply in_map_iff in Hin. destruct Hin as (n & Hid & Hin).
  apply filter_In in Hin. destruct Hin as [_ Hin].
  rewrite negb_true_iff in Hin.
  apply String.eqb_neq in Hin. contradiction.
Qed.

(** C2. Deleting node id [X] (in particular one present in the node
    collection) leaves no node with id [X] and no connection whose
    [fromNodeId] or [toNodeId] is [X]; the nodes other than [X] and the
    connections not touching [X] are the same, in the same order, before and
    after. *)
Theorem deleteNode_cascade (X : string) (s : State) :
  let otherNode := fun n => negb (String.eqb (Node.id n) X) in
  let untouched := fun c => negb (String.eqb (Conn.fromNodeId c) X)
                            && negb (String.eqb (Conn.toNodeId c) X) in
  let s' := step s (DeleteNode X) in
  ~ In X (map Node.id (nodes s'))
  /\ Forall (fun c => Conn.fromNodeId c <> X /\ Conn.toNodeId c <> X)
       (connections s')
  /\ filter otherNode (nodes s') = filter otherNode (nodes s)
  /\ filter untouched (connections s') = filter untouched (connections s)
  /\ (forall n, In n (nodes s') <-> In n (nodes s) /\ Node.id n <> X)
  /\ (forall c, In c (connections s') <->
        In c (connections s)
        /\ Conn.fromNodeId c <> X /\ Conn.toNodeId c <> X).
Proof.
  intros otherNode untouched s'. cbn [s' step deleteNode setConnections
    setNodes nodes connections].
  assert (Hn : forall n, otherNode n = true <-> Node.id n <> X).
  { intros n. unfold otherNode. rewrite negb_true_iff.
    destruct (String.eqb_spec (Node.id n) X); split; congruence. }
  assert (Hc : forall c, untouched c = true <->
                 Conn.fromNodeId c <> X /\ Conn.toNodeId c <> X).
  { intros c. unfold untouched. rewrite andb_true_iff, !negb_true_iff.
    destruct (String.eqb_spec (Conn.fromNodeId c) X),
      (String.eqb_spec (Conn.toNodeId c) X); split;
      (congruence || intros []; congruence || split; congruence). }
  fold otherNode. fold untouched.
  split; [apply deleteNode_removes_id|].
  split.
  { apply Forall_forall. intros c Hin. apply filter_In in Hin.
    now apply Hc. }
  split.
  { induction (nodes s) as [|n ns IH]; cbn; [reflexivity|].
    destruct (otherNode n) eqn:E; cbn; rewrite ?E, IH; reflexivity. }
  split.
  { induction (connections s) as [|c cs IH]; cbn; [reflexivity|].
    destruct (untouched c) eqn:E; cbn; rewrite ?E, IH; reflexivity. }
  split.
  - intros n. rewrite filter_In, Hn. tauto.
  - intros c. rewrite filter_In, Hc. tauto.
Qed.

(** * Drawing connections *)

(** ** What each handler does to the connections and to the pending draw *)

Lemma handleMouseMove_frame (cx cy : Q) (rect : option Point) (s : State) :
  connections (handleMouseMove cx cy rect s) = connections s
  /\ option_map origin (drawingConnection (handleMouseMove cx cy rect s))
     = option_map origin (drawingConnection s)
  /\ map Node.id (nodes (handleMouseMove cx cy rect s)) = map Node.id (nodes s).
Proof.
  unfold handleMouseMove.
  destruct (whenTruthy (selectedNode s)) as [sel|], (dragOffset s) as [off|],
    (drawingConnection s) as [d|] eqn:Ed, rect as [r|];
    cbn [setNodes setDrawingConnection connections drawingConnection nodes
         option_map]; rewrite ?Ed; repeat split; try reflexivity;
    rewrite map_map; apply map_ext; intros n;
    destruct (String.eqb (Node.id n) sel); reflexivity.
Qed.

Lemma moves_frame (ms : list (Q * Q * option Point)) (s : State) :
  connections (run s (moveEvents ms)) = connections s
  /\ option_map origin (drawingConnection (run s (moveEvents ms)))
     = option_map origin (drawingConnection s)
  /\ map Node.id (nodes (run s (moveEvents ms))) = map Node.id (nodes s).
Proof.
  revert s. induction ms as [|m ms IH]; intros s; [now cbn|].
  cbn [moveEvents map run fold_left step].
  destruct (IH (handleMouseMove (fst (fst m)) (snd (fst m)) (snd m) s))
    as (Hc & Hd & Hn).
  destruct (handleMouseMove_frame (fst (fst m)) (snd (fst m)) (snd m) s)
    as (Hc' & Hd' & Hn').
  unfold run, moveEvents in Hc, Hd, Hn.
  rewrite Hc, Hd, Hn, Hc', Hd', Hn'. now repeat split.
Qed.

(** The branches of [handlePinMouseUp]: no pending draw, same node, same
    direction, duplicate, commit. *)
Ltac pin_up_cases s nodeId isIn :=
  unfold handlePinMouseUp;
  let d := fresh "d" in
  destruct (drawingConnection s) as [d|] eqn:?;
  [ destruct (String.eqb (startNodeId d) nodeId) eqn:?;
    [ | destruct (Bool.eqb (isInput d) isIn) eqn:?;
        [ | destruct (existsb _ (connections s)) eqn:? ] ]
  | ].

(** The connections after a pointer-up on a pin, from the origin of the
    pending draw and the stored connections alone. *)
Lemma handlePinMouseUp_connections (now : Z) (nodeId pin : string)
  (isIn : bool) (s : State) :
  connections (handlePinMouseUp now nodeId pin isIn s)
  = match drawingConnection s with
    | None => connections s
    | Some d =>
        if String.eqb (startNodeId d) nodeId then connections s
        else if Bool.eqb (isInput d) isIn then connections s
        else if existsb
                  (fun c' => sameEnds c' (newConnection now d nodeId pin isIn))
                  (connections s)
        then connections s
        else (connections s ++ [newConnection now d nodeId pin isIn])%list
    end.
Proof.
  pin_up_cases s nodeId isIn; reflexivity.
Qed.

(** A pointer-up on a pin changes neither the nodes nor the node drag. *)
Lemma handlePinMouseUp_frame (now : Z) (nodeId pin : string) (isIn : bool)
  (s : State) :
  nodes (handlePinMouseUp now nodeId pin isIn s) = nodes s
  /\ selectedNode (handlePinMouseUp now nodeId pin isIn s) = selectedNode s
  /\ dragOffset (handlePinMouseUp now nodeId pin isIn s) = dragOffset s.
Proof.
  pin_up_cases s nodeId isIn; repeat split.
Qed.

Lemma handlePinMouseUp_origin (now : Z) (nodeId pin : string) (isIn : bool)
  (s s' : State) :
  connections s = connections s' ->
  option_map origin (drawingConnection s)
  = option_map origin (drawingConnection s') ->
  connections (handlePinMouseUp now nodeId pin isIn s)
  = connections (handlePinMouseUp now nodeId pin isIn s').
Proof.
  intros Hc Hd. rewrite !handlePinMouseUp_connections, <- Hc.
  destruct (drawingConnection s) as [d|], (drawingConnection s') as [d'|];
    try discriminate Hd; [|reflexivity].
  injection Hd as Hn Hp Hi.
  assert (E : newConnection now d nodeId pin isIn
              = newConnection now d' nodeId pin isIn).
  { unfold newConnection. now rewrite Hn, Hp. }
  now rewrite Hn, Hi, E.
Qed.

Lemma handlePinMouseUp_clears (now : Z) (nodeId pin : string) (isIn : bool)
  (s : State) :
  drawingConnection (handlePinMouseUp now nodeId pin isIn s) = None.
Proof.
  pin_up_cases s nodeId isIn; try reflexivity. assumption.
Qed.

(** A drag that starts on a pin of a node of the collection: the stored
    connections afterwards. *)
Lemma dragBetween_connections (a b : Pin) (ms : list (Q * Q * option Point))
  (now : Z) (s : State) :
  In (pinNode a) (map Node.id (nodes s)) ->
  pinNode a <> pinNode b ->
  pinIsInput a = negb (pinIsInput b) ->
  forall c, ends c = normalizedEnds a b ->
  Conn.id c = "conn-" ++ numberToString now ->
  connections (dragBetween a ms now b s)
  = if existsb (fun c' => sameEnds c' c) (connections s)
    then connections s else (connections s ++ [c])%list.
Proof.
  intros Ha Hab Hdir c Hends Hid.
  destruct (findNode_Some _ _ Ha) as [n Hn].
  unfold dragBetween. cbn [step].
  set (s0 := handlePinMouseDown _ _ _ _ s).
  destruct (moves_frame ms s0) as (Hc & Hd & _).
  assert (Hs0 : connections s0 = connections s
                /\ option_map origin (drawingConnection s0)
                   = Some (pinNode a, pinName a, pinIsInput a)).
  { unfold s0, handlePinMouseDown. rewrite Hn. now cbn. }
  destruct Hs0 as [Hc0 Hd0].
  rewrite handlePinMouseUp_connections. rewrite Hc, Hc0.
  rewrite Hd0 in Hd.
  destruct (drawingConnection (run s0 (moveEvents ms))) as [d|];
    [|discriminate Hd].
  injection Hd as Hdn Hdp Hdi.
  destruct (String.eqb_spec (startNodeId d) (pinNode b)) as [E|_];
    [congruence|].
  rewrite Hdi, Hdir.
  replace (Bool.eqb (negb (pinIsInput b)) (pinIsInput b)) with false
    by now destruct (pinIsInput b).
  assert (E : newConnection now d (pinNode b) (pinName b) (pinIsInput b) = c).
  { destruct c as [cid cf cfp ct ctp]. unfold newConnection.
    cbn [Conn.id] in Hid. unfold ends, normalizedEnds in Hends.
    cbn [Conn.fromNodeId Conn.fromPin Conn.toNodeId Conn.toPin] in Hends.
    rewrite Hdn, Hdp, Hid.
    destruct (pinIsInput b); now injection Hends as -> -> -> ->. }
  now rewrite E.
Qed.

(** C1. For a drag between output pin [O] of node [A] and input pin [I] of
    a different node [B] (both nodes in the collection), finalization
    stores the connection with [fromNodeId/fromPin = A/O] and
    [toNodeId/toPin = B/I], whether the drag started at [O] or at [I]: it is
    appended unless a connection with these ends is already stored, and in
    both drag orders the stored collection is the same. *)
Theorem drag_direction_normalized (s : State) (A O B I : string)
  (iO iI : nat) (ms : list (Q * Q * option Point)) (now : Z)
  (HA : In A (map Node.id (nodes s)))
  (HB : In B (map Node.id (nodes s)))
  (HAB : A <> B) :
  let outPin := mkPin A O false iO in
  let inPin := mkPin B I true iI in
  let c := Conn.mk ("conn-" ++ numberToString now) A O B I in
  let stored := if existsb (fun c' => sameEnds c' c) (connections s)
                then connections s else (connections s ++ [c])%list in
  connections (dragBetween outPin ms now inPin s) = stored
  /\ connections (dragBetween inPin ms now outPin s) = stored
  /\ exists c', In c' stored
       /\ Conn.fromNodeId c' = A /\ Conn.fromPin c' = O
       /\ Conn.toNodeId c' = B /\ Conn.toPin c' = I.
Proof.
  intros outPin inPin c stored.
  split; [apply dragBetween_connections; auto|].
  split; [apply dragBetween_connections; auto|].
  unfold stored.
  destruct (existsb _ (connections s)) eqn:E.
  - apply stored_spec, in_map_iff in E. destruct E as (c' & Hends & Hin).
    exists c'. split; [exact Hin|]. unfold ends in Hends. cbn in Hends.
    now injection Hends.
  - exists c. split; [apply in_or_app; right; now left | now cbn].
Qed.

(** Two injected nodes; the drag is made once from the output pin and once
    from the input pin. *)
Lemma drag_direction_normalized_witness :
  let s := step initial
             (Inject (fun _ => 0%Z)
                [ChatInterface.mkDescriptor "Event Jump" (Some "event") None
                   (Some ["Out"]);
                 ChatInterface.mkDescriptor "Launch Character" None
                   (Some ["In"]) None]) in
  let c := Conn.mk "conn-5" "node-0-0" "Out" "node-0-1" "In" in
  connections
    (dragBetween (mkPin "node-0-0" "Out" false 0) [(300, 140, None)] 5
       (mkPin "node-0-1" "In" true 0) s) = [c]
  /\ connections
       (dragBetween (mkPin "node-0-1" "In" true 0) [(300, 140, None)] 5
          (mkPin "node-0-0" "Out" false 0) s) = [c].
Proof.
  intros s c.
  assert (HA : In "node-0-0" (map Node.id (nodes s))) by (left; reflexivity).
  assert (HB : In "node-0-1" (map Node.id (nodes s)))
    by (right; left; reflexivity).
  assert (HAB : "node-0-0" <> "node-0-1") by discriminate.
  destruct (drag_direction_normalized s "node-0-0" "Out" "node-0-1" "In"
              0 0 [(300, 140, None)] 5 HA HB HAB) as (H1 & H2 & _).
  split; [exact H1 | exact H2].
Defined.

(** ** Reachable states *)

Lemma reachable_run (s : State) (es : list Event) :
  reachable s -> reachable (run s es).
Proof.
  revert s. induction es as [|e es IH]; intros s Hs; [exact Hs|].
  cbn. apply IH. now constructor.
Qed.

(** How one event changes the stored connections. *)
Lemma step_connections (s : State) (e : Event) :
  connections (step s e) = connections s
  \/ (exists X, e = DeleteNode X
        /\ connections (step s e)
           = filter (fun c => negb (String.eqb (Conn.fromNodeId c) X)
                              && negb (String.eqb (Conn.toNodeId c) X))
               (connections s))
  \/ (exists now nodeId pin isIn d,
        e = PinMouseUp now nodeId pin isIn
        /\ drawingConnection s = Some d
        /\ startNodeId d <> nodeId
        /\ isInput d = negb isIn
        /\ ~ In (ends (newConnection now d nodeId pin isIn))
               (map ends (connections s))
        /\ connections (step s e)
           = (connections s ++ [newConnection now d nodeId pin isIn])%list).
Proof.
  destruct e as [cx cy id | nodeId pin isIn index | now nodeId pin isIn
                | cx cy rect | | X | clock ds]; cbn [step].
  - left. unfold handleNodeMouseDown. now destruct (findNode _ _).
  - left. unfold handlePinMouseDown. now destruct (findNode _ _).
  - rewrite handlePinMouseUp_connections.
    destruct (drawingConnection s) as [d|] eqn:Ed; [|now left].
    destruct (String.eqb_spec (startNodeId d) nodeId) as [|Hn]; [now left|].
    destruct (Bool.eqb (isInput d) isIn) eqn:Hi; [now left|].
    destruct (existsb _ (connections s)) eqn:Hex; [now left|].
    right. right. exists now, nodeId, pin, isIn, d.
    repeat split; try assumption.
    + destruct (isInput d), isIn; (discriminate Hi || reflexivity).
    + intros Hin. apply stored_spec in Hin. congruence.
  - left. apply handleMouseMove_frame.
  - now left.
  - right. left. now exists X.
  - now left.
Qed.

Lemma newConnection_ends (now : Z) (d : Drawing) (nodeId pin : string)
  (isIn : bool) :
  ends (newConnection now d nodeId pin isIn)
  = normalizedEnds (mkPin (startNodeId d) (startPin d) (isInput d) 0)
      (mkPin nodeId pin isIn 0).
Proof.
  unfold ends, newConnection, normalizedEnds. now destruct isIn.
Qed.

(** Dropping connections keeps the remaining ends pairwise different. *)
Lemma filter_distinct_ends (keep : Connection -> bool)
  (cs : list Connection) :
  NoDup (map ends cs) -> NoDup (map ends (filter keep cs)).
Proof.
  intros Hnd. induction cs as [|c cs IH]; cbn; [constructor|].
  cbn in Hnd. apply NoDup_cons_iff in Hnd. destruct Hnd as [Hfresh Hnd].
  destruct (keep c); cbn; [|now apply IH].
  constructor; [|now apply IH].
  intros Hin. apply Hfresh. apply in_map_iff in Hin.
  destruct Hin as (c' & E & Hin). apply filter_In in Hin.
  apply in_map_iff. exists c'. tauto.
Qed.

Lemma reachable_invariant (s : State) :
  reachable s ->
  NoDup (map ends (connections s))
  /\ Forall (fun c => Conn.fromNodeId c <> Conn.toNodeId c) (connections s).
Proof.
  induction 1 as [|s e Hs [IHd IHl]]; [split; constructor|].
  destruct (step_connections s e)
    as [E | [(X & _ & E) | (now & nodeId & pin & isIn & d & _ & _ & Hn & Hi
                             & Hnew & E)]]; rewrite E.
  - now split.
  - split; [now apply filter_distinct_ends|].
    apply Forall_forall. intros c Hin. apply filter_In in Hin.
    rewrite Forall_forall in IHl. now apply IHl.
  - split.
    + rewrite map_app. cbn [map]. apply NoDup_app; [exact IHd | |].
      * constructor; [tauto | constructor].
      * intros e' Hin [<- | []]. contradiction.
    + apply Forall_app. split; [exact IHl|].
      constructor; [|constructor]. unfold newConnection.
      cbn [Conn.fromNodeId Conn.toNodeId].
      destruct isIn; congruence.
Qed.

(** C4. In every reachable state no stored connection has its
    [fromNodeId] equal to its [toNodeId]; a pointer-up on a pin of the same
    direction as the origin pin only discards the pending draw; and whenever
    an event makes a new connection appear, it is a pointer-up on a pin of
    another node and of the opposite direction, the output pin of the two
    being the [from] end and the input pin the [to] end. *)
Theorem no_self_loop_no_same_direction (s : State) (Hs : reachable s) :
  Forall (fun c => Conn.fromNodeId c <> Conn.toNodeId c) (connections s)
  /\ (forall now nodeId pin isIn d,
        drawingConnection s = Some d -> isInput d = isIn ->
        step s (PinMouseUp now nodeId pin isIn) = setDrawingConnection None s)
  /\ (forall e c,
        In c (connections (step s e)) -> ~ In c (connections s) ->
        exists now nodeId pin isIn d,
          e = PinMouseUp now nodeId pin isIn
          /\ drawingConnection s = Some d
          /\ startNodeId d <> nodeId
          /\ isInput d = negb isIn
          /\ (Conn.fromNodeId c, Conn.fromPin c)
             = (if isIn then (startNodeId d, startPin d) else (nodeId, pin))
          /\ (Conn.toNodeId c, Conn.toPin c)
             = (if isIn then (nodeId, pin) else (startNodeId d, startPin d))).
Proof.
  split; [now apply reachable_invariant|]. split.
  - intros now nodeId pin isIn d Hd Hi. cbn [step]. unfold handlePinMouseUp.
    rewrite Hd, Hi, Bool.eqb_reflx.
    now destruct (String.eqb (startNodeId d) nodeId).
  - intros e c Hin Hnew.
    destruct (step_connections s e)
      as [E | [(X & _ & E) | (now & nodeId & pin & isIn & d & He & Hd & Hn
                                & Hi & _ & E)]]; rewrite E in Hin.
    + contradiction.
    + apply filter_In in Hin. tauto.
    + apply in_app_or in Hin. destruct Hin as [Hin | [<- | []]];
        [contradiction|].
      exists now, nodeId, pin, isIn, d. repeat split; try assumption;
        unfold newConnection; cbn; now destruct isIn.
Qed.

(** After one committed drag, a second draw is started on the same output
    pin and released on an output pin of the other node. *)
Lemma no_self_loop_no_same_direction_witness :
  let inject :=
    Inject (fun _ => 0%Z)
      [ChatInterface.mkDescriptor "Event Jump" (Some "event") None
         (Some ["Out"]);
       ChatInterface.mkDescriptor "Launch Character" None (Some ["In"])
         (Some ["Then"])] in
  let s := step (step (step (step initial inject)
                         (PinMouseDown "node-0-0" "Out" false 0))
                   (PinMouseUp 5 "node-0-1" "In" true))
             (PinMouseDown "node-0-0" "Out" false 0) in
  Forall (fun c => Conn.fromNodeId c <> Conn.toNodeId c) (connections s)
  /\ connections (step s (PinMouseUp 9 "node-0-1" "Then" false))
     = [Conn.mk "conn-5" "node-0-0" "Out" "node-0-1" "In"].
Proof.
  intros inject s.
  assert (Hs : reachable s) by (repeat constructor).
  destruct (no_self_loop_no_same_direction s Hs) as (Hloop & Hsame & _).
  split; [exact Hloop|].
  rewrite (Hsame 9%Z "node-0-1" "Then" false
             (mkDrawing "node-0-0" "Out" false
                (100 + ofIndex 0 * 250 + NODE_WIDTH - PIN_OFFSET_X)
                (100 + ofIndex (0 mod 2) * 100 + HEADER_HEIGHT + BODY_PADDING
                 + ofIndex 0 * (PIN_ROW_HEIGHT + PIN_GAP) + PIN_OFFSET_Y)
                (100 + ofIndex 0 * 250 + NODE_WIDTH - PIN_OFFSET_X)
                (100 + ofIndex (0 mod 2) * 100 + HEADER_HEIGHT + BODY_PADDING
                 + ofIndex 0 * (PIN_ROW_HEIGHT + PIN_GAP) + PIN_OFFSET_Y))
             eq_refl eq_refl).
  reflexivity.
Defined.

Lemma normalizedEnds_sym (a b : Pin) :
  pinIsInput a = negb (pinIsInput b) ->
  normalizedEnds b a = normalizedEnds a b.
Proof.
  unfold normalizedEnds. intros ->. now destruct (pinIsInput b).
Qed.

(** A drag between two pins whose connection is already stored, started
    with no draw pending, leaves the stored connections as they are. *)
Lemma dragBetween_stored (a b : Pin) (ms : list (Q * Q * option Point))
  (now : Z) (s : State) :
  drawingConnection s = None ->
  In (normalizedEnds a b) (map ends (connections s)) ->
  connections (dragBetween a ms now b s) = connections s.
Proof.
  intros Hnone Hin. unfold dragBetween. cbn [step].
  set (s0 := handlePinMouseDown _ _ _ _ s).
  destruct (moves_frame ms s0) as (Hc & Hd & _).
  assert (Hs0 : connections s0 = connections s
                /\ (option_map origin (drawingConnection s0) = None
                    \/ option_map origin (drawingConnection s0)
                       = Some (pinNode a, pinName a, pinIsInput a))).
  { unfold s0, handlePinMouseDown.
    destruct (findNode (nodes s) (pinNode a)); cbn; [now auto|].
    rewrite Hnone. now auto. }
  destruct Hs0 as [Hc0 Hd0].
  rewrite handlePinMouseUp_connections, Hc, Hc0.
  destruct (drawingConnection (run s0 (moveEvents ms))) as [d|];
    [|reflexivity].
  destruct Hd0 as [Hd0 | Hd0]; rewrite Hd0 in Hd; [discriminate Hd|].
  injection Hd as Hdn Hdp Hdi.
  destruct (String.eqb (startNodeId d) (pinNode b)); [reflexivity|].
  destruct (Bool.eqb (isInput d) (pinIsInput b)); [reflexivity|].
  replace (existsb _ (connections s)) with true; [reflexivity|].
  symmetry. apply stored_spec. rewrite newConnection_ends.
  unfold normalizedEnds in *. cbn [pinIsInput pinNode pinName].
  now rewrite Hdn, Hdp.
Qed.

(** C5. In every reachable state the stored connections have pairwise
    different [(fromNodeId, fromPin, toNodeId, toPin)]; after a completed
    drag between two pins of opposite directions on different nodes exactly
    one connection with the normalized ends is stored, and completing the
    same drag again, from either end, leaves the collection unchanged. *)
Theorem no_duplicate_connections (s : State) (Hs : reachable s) :
  NoDup (map ends (connections s))
  /\ (forall (a b : Pin) ms now,
        In (pinNode a) (map Node.id (nodes s)) ->
        pinNode a <> pinNode b ->
        pinIsInput a = negb (pinIsInput b) ->
        let s1 := dragBetween a ms now b s in
        countEnds (normalizedEnds a b) (connections s1) = 1%nat
        /\ (forall ms' now',
              connections (dragBetween a ms' now' b s1) = connections s1
              /\ connections (dragBetween b ms' now' a s1) = connections s1)).
Proof.
  split; [now apply reachable_invariant|].
  intros a b ms now Ha Hab Hdir s1.
  assert (Hs1 : reachable s1).
  { unfold s1, dragBetween. constructor. apply reachable_run.
    now constructor. }
  assert (Hnone : drawingConnection s1 = None)
    by apply handlePinMouseUp_clears.
  assert (Hin : In (normalizedEnds a b) (map ends (connections s1))).
  { pose (c := Conn.mk ("conn-" ++ numberToString now)
                 (fst (fst (fst (normalizedEnds a b))))
                 (snd (fst (fst (normalizedEnds a b))))
                 (snd (fst (normalizedEnds a b)))
                 (snd (normalizedEnds a b))).
    assert (Hc : ends c = normalizedEnds a b).
    { unfold c, ends. cbn. now destruct (normalizedEnds a b) as [[[? ?] ?] ?]. }
    unfold s1.
    rewrite (dragBetween_connections a b ms now s Ha Hab Hdir c Hc eq_refl).
    rewrite <- Hc.
    destruct (existsb _ (connections s)) eqn:E.
    - now apply stored_spec.
    - rewrite map_app. apply in_or_app. right. now left. }
  split.
  - unfold countEnds. apply NoDup_count_occ'; [|exact Hin].
    now apply reachable_invariant.
  - intros ms' now'. split; apply dragBetween_stored; try assumption.
    now rewrite normalizedEnds_sym.
Qed.

(** Two injected nodes, one drag from the output pin to the input pin, then
    the same drag again and once more from the input pin. *)
Lemma no_duplicate_connections_witness :
  let s := step initial
             (Inject (fun _ => 0%Z)
                [ChatInterface.mkDescriptor "Event Jump" (Some "event") None
                   (Some ["Out"]);
                 ChatInterface.mkDescriptor "Launch Character" None
                   (Some ["In"]) None]) in
  let a := mkPin "node-0-0" "Out" false 0 in
  let b := mkPin "node-0-1" "In" true 0 in
  let s1 := dragBetween a [] 5 b s in
  NoDup (map ends (connections s))
  /\ countEnds ("node-0-0", "Out", "node-0-1", "In") (connections s1) = 1%nat
  /\ connections (dragBetween a [] 6 b s1) = connections s1
  /\ connections (dragBetween b [] 7 a s1) = connections s1.
Proof.
  intros s a b s1.
  assert (Hs : reachable s) by (repeat constructor).
  destruct (no_duplicate_connections s Hs) as [Hnd Hdrag].
  assert (Ha : In (pinNode a) (map Node.id (nodes s)))
    by (left; reflexivity).
  assert (Hab : pinNode a <> pinNode b) by discriminate.
  destruct (Hdrag a b [] 5%Z Ha Hab eq_refl) as [Hone Hagain].
  split; [exact Hnd|]. split; [exact Hone|].
  split; [exact (proj1 (Hagain [] 6%Z)) | exact (proj2 (Hagain [] 7%Z))].
Defined.

(** * Deleting the origin of a pending draw *)

(** C7 fails on the code: a draw is started on the output pin of node
    ["node-0-0"], the node is deleted, and the pointer is released on the
    input pin of ["node-0-1"].  The deletion removes the node and leaves the
    pending draw in place; no connection is stored before the release, and
    the release stores a connection from the deleted node, which the render
    pass then skips.  With the draw started on a node that is already gone
    nothing is stored: the pointer-down checks that the node exists. *)
Lemma deleted_origin_still_connects :
  let inject :=
    Inject (fun _ => 0%Z)
      [ChatInterface.mkDescriptor "Event Jump" (Some "event") None
         (Some ["Out"]);
       ChatInterface.mkDescriptor "Launch Character" None (Some ["In"])
         None] in
  let s0 := run initial [inject; PinMouseDown "node-0-0" "Out" false 0] in
  let s1 := step s0 (DeleteNode "node-0-0") in
  let s2 := step s1 (PinMouseUp 5 "node-0-1" "In" true) in
  let late := run initial [inject; DeleteNode "node-0-0";
                           PinMouseDown "node-0-0" "Out" false 0;
                           PinMouseUp 5 "node-0-1" "In" true] in
  option_map startNodeId (drawingConnection s0) = Some "node-0-0"
  /\ map Node.id (nodes s1) = ["node-0-1"]
  /\ option_map startNodeId (drawingConnection s1) = Some "node-0-0"
  /\ connections s1 = []
  /\ connections s2 = [Conn.mk "conn-5" "node-0-0" "Out" "node-0-1" "In"]
  /\ map (renderConnection (nodes s2)) (connections s2) = [None]
  /\ connections late = [].
Proof.
  repeat split.
Qed.

(** * Releasing a node drag *)

(** C8 fails on the code: node ["node-0-0"] is grabbed at (110, 110) and
    dragged until the pointer is over the input pin of ["node-0-1"], where
    the button is released.  The pin's pointer-up handler stops the event
    and returns: the state is unchanged, the node is still selected, and the
    next pointer move still drags it.  A release on the canvas does clear
    the selection. *)
Lemma pin_release_keeps_node_drag :
  let inject :=
    Inject (fun _ => 0%Z)
      [ChatInterface.mkDescriptor "Event Jump" (Some "event") None
         (Some ["Out"]);
       ChatInterface.mkDescriptor "Launch Character" None (Some ["In"])
         None] in
  let s0 := run initial [inject; NodeMouseDown 110 110 "node-0-0";
                         MouseMove 362 246 None] in
  let s1 := step s0 (PinMouseUp 5 "node-0-1" "In" true) in
  let s2 := step s1 (MouseMove 500 400 None) in
  let origins := map (fun n => (Node.id n, Node.x n, Node.y n)) in
  selectedNode s0 = Some "node-0-0"
  /\ dragOffset s0 = Some (mkPoint 10 10)
  /\ origins (nodes s0) = [("node-0-0", 352, 236); ("node-0-1", 350, 200)]
  /\ s1 = s0
  /\ selectedNode s1 = Some "node-0-0"
  /\ origins (nodes s2) = [("node-0-0", 490, 390); ("node-0-1", 350, 200)]
  /\ selectedNode (step s0 MouseUp) = None
  /\ dragOffset (step s0 MouseUp) = None.
Proof.
  repeat split.
Qed.

(** * The scenario of the specification *)

Example scenario :
  let s0 := step initial
              (Inject (fun _ => 1700000000000%Z)
                 [ChatInterface.mkDescriptor "Event Jump" (Some "event")
                    (Some []) (Some ["Out"]);
                  ChatInterface.mkDescriptor "Launch Character"
                    (Some "function") (Some ["In"]) (Some [])]) in
  let n1 := "node-1700000000000-0" in
  let n2 := "node-1700000000000-1" in
  let s1 := dragBetween (mkPin n1 "Out" false 0) [(300, 150, None)] 7
              (mkPin n2 "In" true 0) s0 in
  let s2 := dragBetween (mkPin n1 "Out" false 0) [] 8
              (mkPin n2 "In" true 0) s1 in
  let s3 := step s2 (DeleteNode n1) in
  map (fun n => (Node.id n, Node.x n, Node.y n)) (nodes s0)
  = [(n1, 100, 100); (n2, 350, 200)]
  /\ connections s1 = [Conn.mk "conn-7" n1 "Out" n2 "In"]
  /\ connections s2 = connections s1
  /\ map Node.id (nodes s3) = [n2]
  /\ connections s3 = []
  /\ map (renderConnection (nodes s1)) (connections s1)
     = [Some (getPathD 248 146 362 246)].
Proof.
  repeat split.
Qed.

(** * Further properties of the canvas *)

(** ** Positional lookup of a pin name *)

Lemma indexOfFrom_spec (l : list string) (s : string) (start : Z) :
  (indexOfFrom start l s = (-1)%Z /\ ~ In s l)
  \/ (exists k, indexOfFrom start l s = (start + Z.of_nat k)%Z
                /\ nth_error l k = Some s
                /\ forall j, (j < k)%nat -> nth_error l j <> Some s).
Proof.
  revert start. induction l as [|a l IH]; intros start; cbn [indexOfFrom].
  - left. split; [reflexivity | intros []].
  - destruct (String.eqb_spec a s) as [-> | Hne].
    + right. exists 0%nat. cbn. split; [lia|]. split; [reflexivity|].
      intros j Hj. lia.
    + destruct (IH (start + 1)%Z) as [(E & Hnot) | (k & E & Hk & Hfirst)].
      * left. split; [exact E|]. intros [H | H]; congruence.
      * right. exists (S k). split; [rewrite E; lia|].
        split; [exact Hk|]. intros [|j] Hj; cbn; [congruence|].
        apply Hfirst. lia.
Qed.

Lemma first_match_unique (l : list string) (s : string) (k k' : nat) :
  nth_error l k = Some s ->
  (forall j, (j < k)%nat -> nth_error l j <> Some s) ->
  nth_error l k' = Some s ->
  (forall j, (j < k')%nat -> nth_error l j <> Some s) ->
  k = k'.
Proof.
  intros Hk Hfirst Hk' Hfirst'.
  destruct (Nat.lt_trichotomy k k') as [H | [H | H]]; [|exact H|].
  - now apply Hfirst' in H.
  - now apply Hfirst in H.
Qed.

Lemma indexOf_found (l : list string) (s : string) (k : nat) :
  nth_error l k = Some s ->
  (forall j, (j < k)%nat -> nth_error l j <> Some s) ->
  indexOf l s = Z.of_nat k.
Proof.
  intros Hk Hfirst. unfold indexOf.
  destruct (indexOfFrom_spec l s 0) as [(_ & Hnot) | (k' & E & Hk' & Hfirst')].
  - exfalso. apply Hnot. eapply nth_error_In, Hk.
  - rewrite E. rewrite (first_match_unique l s k k'); auto.
Qed.

Lemma indexOf_absent (l : list string) (s : string) :
  indexOf l s = (-1)%Z <-> ~ In s l.
Proof.
  unfold indexOf.
  destruct (indexOfFrom_spec l s 0) as [(E & Hnot) | (k & E & Hk & _)].
  - tauto.
  - split; [lia|]. intros Hnot. exfalso. eapply Hnot, nth_error_In, Hk.
Qed.

Lemma indexOf_present (l : list string) (s : string) :
  In s l ->
  exists k, indexOf l s = Z.of_nat k
            /\ (k < List.length l)%nat
            /\ nth_error l k = Some s
            /\ forall j, (j < k)%nat -> nth_error l j <> Some s.
Proof.
  intros Hin. unfold indexOf.
  destruct (indexOfFrom_spec l s 0) as [(_ & Hnot) | (k & E & Hk & Hfirst)].
  - contradiction.
  - exists k. split; [rewrite E; lia|]. split; [|now split].
    apply nth_error_Some. congruence.
Qed.

Lemma NoDup_first_match (l : list string) (s : string) (k : nat) :
  NoDup l -> nth_error l k = Some s ->
  forall j, (j < k)%nat -> nth_error l j <> Some s.
Proof.
  intros Hnd Hk j Hj Hjs.
  assert (j = k); [|lia].
  rewrite NoDup_nth_error in Hnd. apply Hnd.
  - apply nth_error_Some. congruence.
  - congruence.
Qed.

(** [indexOf] returns [-1] exactly when the name is not in the list;
    otherwise it returns the position of the first element equal to the
    name, which lies within the bounds of the list. *)
Theorem indexOf_first_match (l : list string) (s : string) :
  (indexOf l s = (-1)%Z <-> ~ In s l)
  /\ (In s l ->
      exists k, indexOf l s = Z.of_nat k
                /\ (k < List.length l)%nat
                /\ nth_error l k = Some s
                /\ forall j, (j < k)%nat -> nth_error l j <> Some s).
Proof.
  split; [apply indexOf_absent | apply indexOf_present].
Qed.

(** ** The render pass *)

Lemma findNode_found (ns : list BlueprintNode) (id : string)
  (n : BlueprintNode) :
  findNode ns id = Some n -> Node.id n = id /\ In n ns.
Proof.
  unfold findNode. intros H. apply find_some in H. destruct H as [Hin H].
  apply String.eqb_eq in H. now split.
Qed.

Lemma findNode_app (ns ns' : list BlueprintNode) (id : string) :
  findNode (ns ++ ns') id
  = match findNode ns id with
    | Some n => Some n
    | None => findNode ns' id
    end.
Proof.
  unfold findNode. induction ns as [|n ns IH]; cbn; [reflexivity|].
  now destruct (String.eqb (Node.id n) id).
Qed.

Lemma findNode_filter (ns : list BlueprintNode) (X id : string) :
  id <> X ->
  findNode (filter (fun n => negb (String.eqb (Node.id n) X)) ns) id
  = findNode ns id.
Proof.
  intros Hne. unfold findNode. induction ns as [|n ns IH]; cbn; [reflexivity|].
  destruct (String.eqb_spec (Node.id n) X) as [E | E]; cbn.
  - destruct (String.eqb_spec (Node.id n) id); [congruence | exact IH].
  - now destruct (String.eqb (Node.id n) id).
Qed.

(** The path drawn between pin [i] of the outputs of [f] and pin [j] of the
    inputs of [t]. *)
Lemma renderConnection_at (ns : list BlueprintNode) (c : Connection)
  (f t : BlueprintNode) (i j : nat) :
  findNode ns (Conn.fromNodeId c) = Some f ->
  findNode ns (Conn.toNodeId c) = Some t ->
  indexOf (Node.outputs f) (Conn.fromPin c) = Z.of_nat i ->
  indexOf (Node.inputs t) (Conn.toPin c) = Z.of_nat j ->
  renderConnection ns c
  = Some (getPathD (px (getNodePinPos f (ofIndex i) false))
                   (py (getNodePinPos f (ofIndex i) false))
                   (px (getNodePinPos t (ofIndex j) true))
                   (py (getNodePinPos t (ofIndex j) true))).
Proof.
  intros Hf Ht Hi Hj. unfold renderConnection. rewrite Hf, Ht, Hi, Hj.
  replace (Z.of_nat i =? -1)%Z with false by (symmetry; apply Z.eqb_neq; lia).
  replace (Z.of_nat j =? -1)%Z with false by (symmetry; apply Z.eqb_neq; lia).
  reflexivity.
Qed.

(** X1. A connection is skipped by the render pass exactly when its source
    or destination node is missing from the collection, or its [fromPin] is
    not among the outputs of the source node, or its [toPin] is not among the
    inputs of the destination node.  Otherwise it is drawn from the first
    output pin named [fromPin] to the first input pin named [toPin]. *)
Theorem renderConnection_drawn_iff (ns : list BlueprintNode)
  (c : Connection) :
  (renderConnection ns c = None <->
     findNode ns (Conn.fromNodeId c) = None
     \/ findNode ns (Conn.toNodeId c) = None
     \/ (exists f, findNode ns (Conn.fromNodeId c) = Some f
                   /\ ~ In (Conn.fromPin c) (Node.outputs f))
     \/ (exists t, findNode ns (Conn.toNodeId c) = Some t
                   /\ ~ In (Conn.toPin c) (Node.inputs t)))
  /\ (forall f t i j,
        findNode ns (Conn.fromNodeId c) = Some f ->
        findNode ns (Conn.toNodeId c) = Some t ->
        nth_error (Node.outputs f) i = Some (Conn.fromPin c) ->
        (forall k, (k < i)%nat ->
           nth_error (Node.outputs f) k <> Some (Conn.fromPin c)) ->
        nth_error (Node.inputs t) j = Some (Conn.toPin c) ->
        (forall k, (k < j)%nat ->
           nth_error (Node.inputs t) k <> Some (Conn.toPin c)) ->
        renderConnection ns c
        = Some (getPathD (px (getNodePinPos f (ofIndex i) false))
                         (py (getNodePinPos f (ofIndex i) false))
                         (px (getNodePinPos t (ofIndex j) true))
                         (py (getNodePinPos t (ofIndex j) true)))).
Proof.
  split.
  - destruct (findNode ns (Conn.fromNodeId c)) as [f|] eqn:Hf;
      [|unfold renderConnection; rewrite Hf; tauto].
    destruct (findNode ns (Conn.toNodeId c)) as [t|] eqn:Ht;
      [|unfold renderConnection; rewrite Hf, Ht; tauto].
    destruct (in_dec string_dec (Conn.fromPin c) (Node.outputs f))
      as [Hi | Hi];
      [destruct (in_dec string_dec (Conn.toPin c) (Node.inputs t))
         as [Hj | Hj]|].
    + destruct (indexOf_present _ _ Hi) as (i & Ei & _).
      destruct (indexOf_present _ _ Hj) as (j & Ej & _).
      rewrite (renderConnection_at ns c f t i j Hf Ht Ei Ej).
      split; [discriminate|].
      intros [H | [H | [(f' & [= <-] & H) | (t' & [= <-] & H)]]];
        (discriminate H || contradiction).
    + split; [intros _; right; right; right; now exists t|]. intros _.
      unfold renderConnection. rewrite Hf, Ht.
      apply indexOf_absent in Hj. rewrite Hj. now rewrite orb_true_r.
    + split; [intros _; right; right; left; now exists f|]. intros _.
      unfold renderConnection. rewrite Hf, Ht.
      apply indexOf_absent in Hi. now rewrite Hi.
  - intros f t i j Hf Ht Hi Hfi Hj Hfj.
    apply renderConnection_at; auto using indexOf_found.
Qed.

(** X2. Injecting nodes never changes a connection that is drawn: the
    nodes found first for its ends are the ones that were there before. *)
Theorem inject_keeps_drawn (clock : nat -> Z)
  (ds : list ChatInterface.Descriptor) (ns : list BlueprintNode)
  (c : Connection) (p : list Chunk)
  (H : renderConnection ns c = Some p) :
  renderConnection (ChatInterface.injectNodes clock ds ns) c = Some p.
Proof.
  unfold renderConnection, ChatInterface.injectNodes in *.
  rewrite !findNode_app.
  destruct (findNode ns (Conn.fromNodeId c)) as [f|]; [|discriminate H].
  destruct (findNode ns (Conn.toNodeId c)) as [t|]; [exact H|discriminate H].
Qed.

Lemma inject_keeps_drawn_witness :
  let n1 := Node.mk "a" "Event Jump" "event" 100 100 [] ["Out"] in
  let n2 := Node.mk "b" "Launch Character" "function" 350 200 ["In"] [] in
  renderConnection
    (ChatInterface.injectNodes (fun _ => 0%Z)
       [ChatInterface.mkDescriptor "Branch" None None None] [n1; n2])
    (Conn.mk "conn-1" "a" "Out" "b" "In")
  = Some (getPathD 248 146 362 246).
Proof.
  intros n1 n2.
  exact (inject_keeps_drawn (fun _ => 0%Z)
           [ChatInterface.mkDescriptor "Branch" None None None] [n1; n2]
           (Conn.mk "conn-1" "a" "Out" "b" "In")
           (getPathD 248 146 362 246) eq_refl).
Defined.

(** X3. Deleting a node does not change how the connections between other
    nodes are drawn. *)
Theorem deleteNode_keeps_other_drawn (X : string) (s : State)
  (c : Connection)
  (Hfrom : Conn.fromNodeId c <> X) (Hto : Conn.toNodeId c <> X) :
  In c (connections s) -> In c (connections (step s (DeleteNode X)))
  /\ renderConnection (nodes (step s (DeleteNode X))) c
     = renderConnection (nodes s) c.
Proof.
  intros Hin. cbn [step deleteNode setConnections setNodes nodes connections].
  split.
  - apply filter_In. split; [exact Hin|].
    apply andb_true_iff. split; apply negb_true_iff, String.eqb_neq;
      assumption.
  - unfold renderConnection. now rewrite !findNode_filter.
Qed.

Lemma deleteNode_keeps_other_drawn_witness :
  let n1 := Node.mk "a" "Event Jump" "event" 100 100 [] ["Out"] in
  let n2 := Node.mk "b" "Launch Character" "function" 350 200 ["In"] [] in
  let n3 := Node.mk "c" "Branch" "function" 600 100 ["In"] [] in
  let c := Conn.mk "conn-1" "a" "Out" "b" "In" in
  let s := mkState [n1; n2; n3] [c; Conn.mk "conn-2" "a" "Out" "c" "In"]
             None None None in
  In c (connections (step s (DeleteNode "c")))
  /\ renderConnection (nodes (step s (DeleteNode "c"))) c
     = Some (getPathD 248 146 362 246).
Proof.
  intros n1 n2 n3 c s.
  assert (Hfrom : Conn.fromNodeId c <> "c") by discriminate.
  assert (Hto : Conn.toNodeId c <> "c") by discriminate.
  assert (Hin : In c (connections s)) by (left; reflexivity).
  exact (deleteNode_keeps_other_drawn "c" s c Hfrom Hto Hin).
Defined.

(** ** Dragging a node *)

Lemma findNode_map (g : BlueprintNode -> BlueprintNode)
  (ns : list BlueprintNode) (id : string) :
  (forall n, Node.id (g n) = Node.id n) ->
  findNode (map g ns) id = option_map g (findNode ns id).
Proof.
  intros Hg. unfold findNode. induction ns as [|n ns IH]; cbn; [reflexivity|].
  rewrite Hg. now destruct (String.eqb (Node.id n) id).
Qed.

(** X4. Grabbing a node of the collection (with a non-empty id) at
    [(cx, cy)] and moving the pointer to [(cx', cy')] puts that node at the
    pointer minus the offset captured at the grab,
    [(cx' - (cx - x), cy' - (cy - y))]; when the origin and the two pointer
    positions are integer coordinates this is the old origin moved by the
    pointer's displacement.  Nodes with another id, the shape of every node
    and the connections are unchanged, and the grab stays active. *)
Theorem node_drag_follows_pointer (s : State) (id : string)
  (n : BlueprintNode) (cx cy cx' cy' : Q) (rect : option Point)
  (Hn : findNode (nodes s) id = Some n) (Hid : id <> "") :
  let s' := step (step s (NodeMouseDown cx cy id)) (MouseMove cx' cy' rect) in
  connections s' = connections s
  /\ map shape (nodes s') = map shape (nodes s)
  /\ Forall2 (fun m m' => Node.id m <> id -> m' = m) (nodes s) (nodes s')
  /\ (exists n', findNode (nodes s') id = Some n'
                 /\ Node.x n' = cx' - (cx - Node.x n)
                 /\ Node.y n' = cy' - (cy - Node.y n)
                 /\ (pixel (Node.x n) -> pixel cx -> pixel cx' ->
                     Node.x n' == Node.x n + (cx' - cx))
                 /\ (pixel (Node.y n) -> pixel cy -> pixel cy' ->
                     Node.y n' == Node.y n + (cy' - cy)))
  /\ selectedNode s' = Some id
  /\ dragOffset s'
     = Some {| px := cx - Node.x n; py := cy - Node.y n |}.
Proof.
  intros s'.
  assert (Htruthy : whenTruthy (Some id) = Some id).
  { unfold whenTruthy, truthy, truthy_nullable, truthy, truthy_string.
    destruct (String.eqb_spec id ""); [contradiction | reflexivity]. }
  set (g := fun m : BlueprintNode =>
              if String.eqb (Node.id m) id
              then {| Node.id := Node.id m;
                      Node.name := Node.name m;
                      Node.type := Node.type m;
                      Node.x := cx' - (cx - Node.x n);
                      Node.y := cy' - (cy - Node.y n);
                      Node.inputs := Node.inputs m;
                      Node.outputs := Node.outputs m |}
              else m).
  assert (Hs' : s' = setNodes (map g)
                       (setDragOffset
                          (Some {| px := cx - Node.x n; py := cy - Node.y n |})
                          (setSelectedNode (Some id) s))).
  { unfold s'. cbn [step]. unfold handleNodeMouseDown. rewrite Hn.
    unfold handleMouseMove.
    cbn [setDragOffset setSelectedNode selectedNode dragOffset].
    rewrite Htruthy. reflexivity. }
  rewrite Hs'. cbn [setNodes setDragOffset setSelectedNode nodes connections
                      selectedNode dragOffset].
  assert (Hg : forall m, shape (g m) = shape m).
  { intros m. unfold g. now destruct (String.eqb (Node.id m) id). }
  split; [reflexivity|]. split.
  { rewrite map_map. apply map_ext. exact Hg. }
  split.
  { assert (Hall : forall l,
              Forall2 (fun m m' => Node.id m <> id -> m' = m) l (map g l)).
    { induction l as [|m ms IH]; cbn; constructor; [|exact IH].
      intros Hm. unfold g.
      destruct (String.eqb_spec (Node.id m) id);
        [contradiction | reflexivity]. }
    apply Hall. }
  split; [|now split].
  exists (g n). rewrite findNode_map, Hn.
  - split; [reflexivity|]. unfold g.
    destruct (findNode_found _ _ _ Hn) as [E _].
    rewrite E, String.eqb_refl. cbn [Node.x Node.y].
    split; [reflexivity|]. split; [reflexivity|].
    split; intros _ _ _; ring.
  - intros m. specialize (Hg m). unfold shape in Hg. congruence.
Qed.

Lemma node_drag_follows_pointer_witness :
  let n1 := Node.mk "node-0-0" "Event Jump" "event" 100 100 [] ["Out"] in
  let n2 := Node.mk "node-0-1" "Launch Character" "function" 350 200
              ["In"] [] in
  let s := mkState [n1; n2] [] None None None in
  let s' := step (step s (NodeMouseDown 110 120 "node-0-0"))
              (MouseMove 210 170 None) in
  exists n', findNode (nodes s') "node-0-0" = Some n'
             /\ Node.x n' = 210 - (110 - 100)
             /\ Node.y n' = 170 - (120 - 100)
             /\ Node.x n' == 100 + (210 - 110)
             /\ Node.y n' == 100 + (170 - 120).
Proof.
  intros n1 n2 s s'.
  assert (Hid : "node-0-0" <> "") by discriminate.
  assert (Hpx : forall z, (Z.abs z <= 2 ^ 50)%Z -> pixel (inject_Z z))
    by (intros z Hz; exists z; split; [reflexivity | exact Hz]).
  destruct (node_drag_follows_pointer s "node-0-0" n1 110 120 210 170 None
              eq_refl Hid)
    as (_ & _ & _ & (n' & Hn' & Hx & Hy & Hdx & Hdy) & _).
  exists n'. split; [exact Hn'|]. split; [exact Hx|]. split; [exact Hy|].
  split.
  - apply Hdx; [apply (Hpx 100%Z) | apply (Hpx 110%Z) | apply (Hpx 210%Z)];
      vm_compute; discriminate.
  - apply Hdy; [apply (Hpx 100%Z) | apply (Hpx 120%Z) | apply (Hpx 170%Z)];
      vm_compute; discriminate.
Defined.

(** X5. While the canvas element is mounted, only the last of two
    consecutive pointer moves matters: the state after both is the state
    after the second alone, for a node drag as for a pending draw. *)
Theorem last_move_wins (cx cy cx' cy' : Q) (r r' : Point) (s : State) :
  step (step s (MouseMove cx' cy' (Some r'))) (MouseMove cx cy (Some r))
  = step s (MouseMove cx cy (Some r)).
Proof.
  cbn [step]. unfold handleMouseMove.
  destruct (whenTruthy (selectedNode s)) as [sel|] eqn:Hsel;
    destruct (dragOffset s) as [off|] eqn:Hoff;
    destruct (drawingConnection s) as [d|] eqn:Hd;
    cbn [setNodes setDrawingConnection selectedNode dragOffset
         drawingConnection nodes connections];
    rewrite ?Hsel, ?Hoff, ?Hd;
    cbn [startNodeId startPin isInput startX startY];
    try reflexivity.
  all: unfold setNodes;
    cbn [nodes connections selectedNode dragOffset drawingConnection];
    f_equal; rewrite map_map; apply map_ext; intros n;
    destruct (String.eqb (Node.id n) sel) eqn:E;
    cbn [Node.id]; rewrite E; reflexivity.
Qed.

(** X6. Pointer events never add, remove, reorder or relabel nodes: after
    any event other than an injection or a deletion the nodes have the same
    ids, names, types and pins in the same order; only origins can change. *)
Theorem pointer_events_only_move_nodes (s : State) (e : Event) :
  map shape (nodes (step s e))
  = match e with
    | Inject clock ds =>
        (map shape (nodes s)
           ++ map shape (ChatInterface.newNodes clock ds))%list
    | DeleteNode X =>
        map shape
          (filter (fun n => negb (String.eqb (Node.id n) X)) (nodes s))
    | _ => map shape (nodes s)
    end.
Proof.
  destruct e as [cx cy id | nodeId pin isIn index | now nodeId pin isIn
                | cx cy rect | | X | clock ds]; cbn [step].
  - unfold handleNodeMouseDown. now destruct (findNode _ _).
  - unfold handlePinMouseDown. now destruct (findNode _ _).
  - f_equal. apply handlePinMouseUp_frame.
  - unfold handleMouseMove.
    destruct (whenTruthy (selectedNode s)) as [sel|], (dragOffset s) as [off|],
      (drawingConnection s) as [d|], rect as [r|];
      cbn [setNodes setDrawingConnection nodes]; try reflexivity;
      rewrite map_map; apply map_ext; intros n;
      now destruct (String.eqb (Node.id n) sel).
  - reflexivity.
  - reflexivity.
  - cbn [setNodes nodes]. unfold ChatInterface.injectNodes.
    now rewrite map_app.
Qed.

(** ** Selection and injected ids in reachable states *)

Lemma handleMouseMove_selection (cx cy : Q) (rect : option Point)
  (s : State) :
  selectedNode (handleMouseMove cx cy rect s) = selectedNode s
  /\ dragOffset (handleMouseMove cx cy rect s) = dragOffset s.
Proof.
  unfold handleMouseMove.
  destruct (whenTruthy (selectedNode s)) as [sel|], (dragOffset s) as [off|]
    eqn:Hoff, (drawingConnection s) as [d|], rect as [r|];
    cbn [setNodes setDrawingConnection selectedNode dragOffset];
    rewrite ?Hoff; now split.
Qed.

Lemma newNodes_ids (clock : nat -> Z) (ds : list ChatInterface.Descriptor)
  (id : string) :
  In id (map Node.id (ChatInterface.newNodes clock ds)) ->
  exists rest, id = "node-" ++ rest.
Proof.
  intros Hin. apply in_map_iff in Hin. destruct Hin as (n & <- & Hin).
  apply mapFrom_In in Hin. destruct Hin as (d & i & _ & ->).
  cbn [ChatInterface.newNode Node.id]. eexists. reflexivity.
Qed.

Lemma reachable_selection (s : State) :
  reachable s ->
  (selectedNode s = None <-> dragOffset s = None)
  /\ Forall (fun id => exists rest, id = "node-" ++ rest)
       (map Node.id (nodes s))
  /\ (forall id, selectedNode s = Some id -> exists rest, id = "node-" ++ rest).
Proof.
  induction 1 as [|s e Hs (IHsel & IHids & IHid)].
  - cbn. split; [tauto|]. split; [constructor | discriminate].
  - destruct e as [cx cy id | nodeId pin isIn index | now nodeId pin isIn
                  | cx cy rect | | X | clock ds]; cbn [step].
    + unfold handleNodeMouseDown.
      destruct (findNode (nodes s) id) as [n|] eqn:Hn; [|exact (conj IHsel (conj IHids IHid))].
      cbn [setDragOffset setSelectedNode selectedNode dragOffset nodes].
      split; [split; discriminate|]. split; [exact IHids|].
      intros id' [= <-]. destruct (findNode_found _ _ _ Hn) as [<- Hin].
      rewrite Forall_forall in IHids. apply IHids. now apply in_map.
    + unfold handlePinMouseDown.
      destruct (findNode (nodes s) nodeId); exact (conj IHsel (conj IHids IHid)).
    + destruct (handlePinMouseUp_frame now nodeId pin isIn s)
        as (-> & -> & ->). exact (conj IHsel (conj IHids IHid)).
    + destruct (handleMouseMove_selection cx cy rect s) as [-> ->].
      destruct (handleMouseMove_frame cx cy rect s) as (_ & _ & ->).
      exact (conj IHsel (conj IHids IHid)).
    + cbn. split; [tauto|]. split; [exact IHids | discriminate].
    + cbn [deleteNode setConnections setNodes nodes selectedNode dragOffset].
      split; [exact IHsel|]. split; [|exact IHid].
      rewrite Forall_forall in *. intros id Hin. apply IHids.
      apply in_map_iff in Hin. destruct Hin as (n & <- & Hin).
      apply filter_In in Hin. now apply in_map.
    + cbn [setNodes nodes selectedNode dragOffset].
      split; [exact IHsel|]. split; [|exact IHid].
      unfold ChatInterface.injectNodes. rewrite map_app.
      apply Forall_app. split; [exact IHids|].
      apply Forall_forall. intros id. apply newNodes_ids.
Qed.

(** X7. In every reachable state the selected node and the drag offset are
    set together; every node id, and the selected id if any, is an injected
    id ["node-..."], hence non-empty, so the truthiness test of the selection
    in the move handler never rejects a selection. *)
Theorem selection_invariant (s : State) (Hs : reachable s) :
  (selectedNode s = None <-> dragOffset s = None)
  /\ Forall (fun id => exists rest, id = "node-" ++ rest)
       (map Node.id (nodes s))
  /\ (forall id, selectedNode s = Some id -> exists rest, id = "node-" ++ rest)
  /\ whenTruthy (selectedNode s) = selectedNode s.
Proof.
  destruct (reachable_selection s Hs) as (Hsel & Hids & Hid).
  repeat split; try tauto; try assumption.
  destruct (selectedNode s) as [id|]; [|reflexivity].
  destruct (Hid id eq_refl) as [rest ->]. reflexivity.
Qed.

Lemma selection_invariant_witness :
  let s := step (step initial
                   (Inject (fun _ => 0%Z)
                      [ChatInterface.mkDescriptor "Event Jump" None None
                         None]))
             (NodeMouseDown 110 110 "node-0-0") in
  (selectedNode s = None <-> dragOffset s = None)
  /\ whenTruthy (selectedNode s) = Some "node-0-0".
Proof.
  intros s.
  assert (Hs : reachable s) by (repeat constructor).
  destruct (selection_invariant s Hs) as (Hsel & _ & _ & Htruthy).
  split; [exact Hsel | exact Htruthy].
Defined.

(** ** Releasing the pointer *)

(** X8. A release ends the draw for good: after a pointer-up on the canvas
    or on a pin no draw is pending, no drag line is rendered, and a further
    pointer-up on a pin (without a new pointer-down) leaves the state as it
    is, so one pointer-down commits at most one connection. *)
Theorem release_is_final (s : State) (now now' : Z)
  (nodeId pin nodeId' pin' : string) (isIn isIn' : bool) :
  let up := PinMouseUp now nodeId pin isIn in
  let up' := PinMouseUp now' nodeId' pin' isIn' in
  renderDragLine (step s MouseUp) = None
  /\ renderDragLine (step s up) = None
  /\ step (step s MouseUp) up' = step s MouseUp
  /\ step (step s up) up' = step s up.
Proof.
  cbv zeta. unfold renderDragLine. cbn [step].
  rewrite handlePinMouseUp_clears. repeat split.
  unfold handlePinMouseUp at 1. now rewrite handlePinMouseUp_clears.
Qed.

(** ** Deleting nodes *)

Lemma filter_twice {A : Type} (p q : A -> bool) (l : list A) :
  filter p (filter q l) = filter (fun a => q a && p a) l.
Proof.
  induction l as [|a l IH]; cbn; [reflexivity|].
  destruct (q a); cbn; [destruct (p a)|]; now rewrite IH.
Qed.

(** X9. Deleting the same node twice is deleting it once, and two
    deletions give the same state in either order. *)
Theorem deleteNode_idempotent_commutes (X Y : string) (s : State) :
  step (step s (DeleteNode X)) (DeleteNode X) = step s (DeleteNode X)
  /\ step (step s (DeleteNode X)) (DeleteNode Y)
     = step (step s (DeleteNode Y)) (DeleteNode X).
Proof.
  cbn [step]. unfold deleteNode, setConnections, setNodes.
  cbn [nodes connections selectedNode dragOffset drawingConnection].
  split; f_equal; rewrite !filter_twice; apply filter_ext; intros a.
  - now destruct (negb (String.eqb (Node.id a) X)).
  - destruct (String.eqb (Conn.fromNodeId a) X),
      (String.eqb (Conn.toNodeId a) X); reflexivity.
  - apply andb_comm.
  - apply andb_comm.
Qed.

(** ** A committed drag is drawn *)

Lemma moves_idle (ms : list (Q * Q * option Point)) (s : State) :
  selectedNode s = None ->
  nodes (run s (moveEvents ms)) = nodes s.
Proof.
  revert s. induction ms as [|m ms IH]; intros s Hsel; [reflexivity|].
  cbn [moveEvents map run fold_left step].
  set (s1 := handleMouseMove (fst (fst m)) (snd (fst m)) (snd m) s).
  assert (H1 : nodes s1 = nodes s /\ selectedNode s1 = None).
  { unfold s1, handleMouseMove. rewrite Hsel. cbn.
    destruct (drawingConnection s), (snd m); now split. }
  destruct H1 as [Hn Hs1]. rewrite <- Hn. now apply IH.
Qed.

Lemma dragBetween_idle_nodes (a b : Pin) (ms : list (Q * Q * option Point))
  (now : Z) (s : State) :
  selectedNode s = None -> nodes (dragBetween a ms now b s) = nodes s.
Proof.
  intros Hsel. unfold dragBetween. cbn [step].
  destruct (handlePinMouseUp_frame now (pinNode b) (pinName b) (pinIsInput b)
              (run (handlePinMouseDown (pinNode a) (pinName a) (pinIsInput a)
                      (pinIndex a) s) (moveEvents ms))) as [-> _].
  rewrite moves_idle; unfold handlePinMouseDown;
    now destruct (findNode (nodes s) (pinNode a)).
Qed.

(** X10. With no node drag active, a drag from output pin number [iO] of
    node [A] to input pin number [iI] of another node [B] (or the other way
    round), where the pin names of each column are pairwise different,
    leaves a stored connection between the two pins that the render pass
    draws from the position of the output pin to the position of the input
    pin, the anchors of the drag. *)
Theorem committed_drag_is_drawn (s : State) (A O B I : string) (iO iI : nat)
  (nA nB : BlueprintNode) (ms : list (Q * Q * option Point)) (now : Z)
  (Hidle : selectedNode s = None)
  (HA : findNode (nodes s) A = Some nA)
  (HB : findNode (nodes s) B = Some nB)
  (HO : nth_error (Node.outputs nA) iO = Some O)
  (HI : nth_error (Node.inputs nB) iI = Some I)
  (HndO : NoDup (Node.outputs nA))
  (HndI : NoDup (Node.inputs nB))
  (HAB : A <> B) :
  let outPin := mkPin A O false iO in
  let inPin := mkPin B I true iI in
  let pO := getNodePinPos nA (ofIndex iO) false in
  let pI := getNodePinPos nB (ofIndex iI) true in
  forall s', s' = dragBetween outPin ms now inPin s
             \/ s' = dragBetween inPin ms now outPin s ->
    exists c, In c (connections s')
              /\ ends c = (A, O, B, I)
              /\ renderConnection (nodes s') c
                 = Some (getPathD (px pO) (py pO) (px pI) (py pI)).
Proof.
  intros outPin inPin pO pI s' Hs'.
  assert (HinA : In A (map Node.id (nodes s))).
  { destruct (findNode_found _ _ _ HA) as [<- Hin]. now apply in_map. }
  assert (HinB : In B (map Node.id (nodes s))).
  { destruct (findNode_found _ _ _ HB) as [<- Hin]. now apply in_map. }
  pose (c0 := Conn.mk ("conn-" ++ numberToString now) A O B I).
  assert (Hnodes : nodes s' = nodes s).
  { destruct Hs' as [-> | ->]; now apply dragBetween_idle_nodes. }
  assert (Hconns : connections s'
                   = if existsb (fun c' => sameEnds c' c0) (connections s)
                     then connections s else (connections s ++ [c0])%list).
  { destruct Hs' as [-> | ->];
      apply dragBetween_connections; auto. }
  assert (Hex : exists c, In c (connections s') /\ ends c = (A, O, B, I)).
  { rewrite Hconns. destruct (existsb _ (connections s)) eqn:E.
    - apply stored_spec, in_map_iff in E. destruct E as (c & Hc & Hin).
      now exists c.
    - exists c0. split; [apply in_or_app; right; now left | reflexivity]. }
  destruct Hex as (c & Hin & Hends). exists c.
  split; [exact Hin|]. split; [exact Hends|].
  unfold ends in Hends. injection Hends as Hf Hfp Ht Htp.
  rewrite Hnodes. apply renderConnection_at.
  - now rewrite Hf.
  - now rewrite Ht.
  - rewrite Hfp. apply indexOf_found; [exact HO|].
    now apply NoDup_first_match.
  - rewrite Htp. apply indexOf_found; [exact HI|].
    now apply NoDup_first_match.
Qed.

Lemma committed_drag_is_drawn_witness :
  let n1 := Node.mk "node-0-0" "Branch" "function" 100 100 ["In"]
              ["True"; "False"] in
  let n2 := Node.mk "node-0-1" "Launch Character" "function" 350 200
              ["In"; "Velocity"] [] in
  let s := mkState [n1; n2] [] None None None in
  exists c,
    In c (connections
            (dragBetween (mkPin "node-0-1" "Velocity" true 1)
               [(300, 150, None)] 7 (mkPin "node-0-0" "False" false 1) s))
    /\ ends c = ("node-0-0", "False", "node-0-1", "Velocity")
    /\ renderConnection
         (nodes (dragBetween (mkPin "node-0-1" "Velocity" true 1)
                   [(300, 150, None)] 7 (mkPin "node-0-0" "False" false 1) s))
         c
       = Some (getPathD 248 170 362 270).
Proof.
  intros n1 n2 s.
  assert (HndO : NoDup ["True"; "False"]).
  { constructor; [intros [H | []]; discriminate H|].
    constructor; [intros [] | constructor]. }
  assert (HndI : NoDup ["In"; "Velocity"]).
  { constructor; [intros [H | []]; discriminate H|].
    constructor; [intros [] | constructor]. }
  assert (HAB : "node-0-0" <> "node-0-1") by discriminate.
  exact (committed_drag_is_drawn s "node-0-0" "False" "node-0-1" "Velocity"
           1 1 n1 n2 [(300, 150, None)] 7 eq_refl eq_refl eq_refl eq_refl
           eq_refl HndO HndI HAB _ (or_intror eq_refl)).
Defined.

(** ** Layout *)

Lemma ofIndex_lt (i j : nat) : (i < j)%nat -> ofIndex i + 1 <= ofIndex j.
Proof.
  intros H. unfold ofIndex.
  change 1 with (inject_Z 1). rewrite <- inject_Z_plus, <- Zle_Qle. lia.
Qed.

Lemma ofIndex_inj (i j : nat) : ofIndex i == ofIndex j -> i = j.
Proof.
  unfold ofIndex. rewrite inject_Z_injective. lia.
Qed.

(** X11. The pins of a node at integer coordinates never coincide (rows
    are array indices, below [2^32]): pin glyphs lie strictly inside the
    horizontal extent of the node and below its header, input pins to the
    left of output pins; two pins at the same position have the same row and
    direction, and a later row lies a full row height plus gap below an
    earlier one. *)
Theorem pin_layout (N : BlueprintNode) (i j : nat) (b b' : bool)
  (Hx : pixel (Node.x N)) (Hy : pixel (Node.y N))
  (Hi : (Z.of_nat i < 2 ^ 32)%Z) (Hj : (Z.of_nat j < 2 ^ 32)%Z) :
  let p := getNodePinPos N (ofIndex i) b in
  let q := getNodePinPos N (ofIndex j) b' in
  Node.x N < px p /\ px p < Node.x N + NODE_WIDTH
  /\ Node.y N + HEADER_HEIGHT + BODY_PADDING < py p
  /\ px (getNodePinPos N (ofIndex i) true)
     < px (getNodePinPos N (ofIndex j) false)
  /\ (px p == px q /\ py p == py q -> i = j /\ b = b')
  /\ ((i < j)%nat -> py p + PIN_ROW_HEIGHT + PIN_GAP <= py q).
Proof.
  cbv zeta. unfold getNodePinPos. cbn [px py].
  unfold PIN_OFFSET_X, PIN_OFFSET_Y, NODE_WIDTH, HEADER_HEIGHT, BODY_PADDING,
    PIN_ROW_HEIGHT, PIN_GAP.
  assert (H0 : 0 <= ofIndex i).
  { unfold ofIndex. change 0 with (inject_Z 0). rewrite <- Zle_Qle. lia. }
  split; [destruct b; lra|]. split; [destruct b; lra|].
  split; [lra|]. split; [lra|]. split.
  - intros [Hpx Hpy]. split.
    + apply ofIndex_inj. lra.
    + destruct b, b'; try reflexivity; exfalso; lra.
  - intros Hij. apply ofIndex_lt in Hij. lra.
Qed.

(** The injected node at (350, 200): the second input row lies 24 below
    the first. *)
Lemma pin_layout_witness :
  let N := Node.mk "node-0-1" "Launch Character" "function" 350 200
             ["In"; "Velocity"] ["Then"] in
  py (getNodePinPos N (ofIndex 0) true) + PIN_ROW_HEIGHT + PIN_GAP
  <= py (getNodePinPos N (ofIndex 1) true).
Proof.
  intros N.
  assert (Hx : pixel (Node.x N))
    by (exists 350%Z; split; [reflexivity | vm_compute; discriminate]).
  assert (Hy : pixel (Node.y N))
    by (exists 200%Z; split; [reflexivity | vm_compute; discriminate]).
  assert (H01 : (0 < 1)%nat) by lia.
  assert (Hi : (Z.of_nat 0 < 2 ^ 32)%Z) by reflexivity.
  assert (Hj : (Z.of_nat 1 < 2 ^ 32)%Z) by reflexivity.
  exact (proj2 (proj2 (proj2 (proj2 (proj2
           (pin_layout N 0 1 true true Hx Hy Hi Hj))))) H01).
Defined.

(** X12. The nodes of one injected batch never overlap: a later node of the
    batch starts at least 90 to the right of the right edge of an earlier
    one. *)
Theorem batch_nodes_do_not_overlap (clock : nat -> Z)
  (ds : list ChatInterface.Descriptor) (i j : nat) (ni nj : BlueprintNode)
  (Hi : nth_error (ChatInterface.newNodes clock ds) i = Some ni)
  (Hj : nth_error (ChatInterface.newNodes clock ds) j = Some nj)
  (Hij : (i < j)%nat) :
  Node.x ni + NODE_WIDTH + 90 <= Node.x nj.
Proof.
  unfold ChatInterface.newNodes, mapi in Hi, Hj.
  rewrite mapFrom_nth_error in Hi, Hj. cbn [Nat.add] in Hi, Hj.
  destruct (nth_error ds i) as [di|]; [|discriminate Hi].
  destruct (nth_error ds j) as [dj|]; [|discriminate Hj].
  injection Hi as <-. injection Hj as <-.
  cbn [ChatInterface.newNode Node.x]. unfold NODE_WIDTH.
  apply ofIndex_lt in Hij. lra.
Qed.

Lemma batch_nodes_do_not_overlap_witness :
  let d := ChatInterface.mkDescriptor "Branch" None None None in
  Node.x (ChatInterface.newNode 0 d 0) + NODE_WIDTH + 90
  <= Node.x (ChatInterface.newNode 0 d 2).
Proof.
  intros d.
  assert (Hij : (0 < 2)%nat) by lia.
  exact (batch_nodes_do_not_overlap (fun _ => 0%Z) [d; d; d] 0 2
           (ChatInterface.newNode 0 d 0) (ChatInterface.newNode 0 d 2)
           eq_refl eq_refl Hij).
Defined.

(** X13. The control points of a path never fold back: the first lies at or
    right of the start and the second at or left of the end.  For endpoints
    at integer coordinates both lie at the same horizontal distance from
    their endpoint; when the end is not left of the start both sit on the
    vertical through the midpoint, and when the end is left of the start they
    lie outside the span, half its width away. *)
Theorem getPathD_control_points (x1 y1 x2 y2 : Q) :
  exists c : Cubic,
    cubicOfPath (getPathD x1 y1 x2 y2) = Some c
    /\ x1 <= px (c1 c)
    /\ px (c2 c) <= x2
    /\ (pixel x1 -> pixel x2 ->
        px (c1 c) - x1 == x2 - px (c2 c)
        /\ (x1 <= x2 ->
            px (c1 c) == (x1 + x2) / 2 /\ px (c2 c) == (x1 + x2) / 2)
        /\ (x2 <= x1 ->
            px (c1 c) == x1 + (x1 - x2) / 2
            /\ px (c2 c) == x2 - (x1 - x2) / 2)).
Proof.
  eexists. split; [reflexivity|]. cbn [c1 c2 px].
  pose proof (Qabs_nonneg (x2 - x1)) as Hnn.
  split; [lra|]. split; [lra|]. intros _ _. split; [lra|]. split.
  - intros H. rewrite Qabs_pos by lra. split; field.
  - intros H. rewrite Qabs_neg by lra. split; field.
Qed.

(** X14. Every node type other than ["event"], ["variable"] and ["macro"]
    is styled like ["function"], border and header alike; in particular the
    node created for a descriptor without a type. *)
Theorem unknown_type_styled_as_function (t : string)
  (He : t <> "event") (Hv : t <> "variable") (Hm : t <> "macro") :
  getNodeColor t = getNodeColor "function"
  /\ getNodeHeaderColor t = getNodeHeaderColor "function"
  /\ forall now name ins outs idx,
       getNodeColor
         (Node.type
            (ChatInterface.newNode now
               (ChatInterface.mkDescriptor name None ins outs) idx))
       = getNodeColor t.
Proof.
  unfold getNodeColor, getNodeHeaderColor.
  apply String.eqb_neq in He, Hv, Hm. rewrite He, Hv, Hm. cbn.
  repeat split; now destruct (String.eqb t "function").
Qed.

Lemma unknown_type_styled_as_function_witness :
  getNodeColor "Function" = "border-blue-500 bg-blue-900/40"
  /\ getNodeHeaderColor "Function" = "bg-blue-600".
Proof.
  assert (He : "Function" <> "event") by discriminate.
  assert (Hv : "Function" <> "variable") by discriminate.
  assert (Hm : "Function" <> "macro") by discriminate.
  destruct (unknown_type_styled_as_function "Function" He Hv Hm)
    as (H1 & H2 & _).
  split; [exact H1 | exact H2].
Defined.

(** * The chat pane and the model service *)

(** ** More on strings *)

Lemma append_assoc (a b c : string) : (a ++ b) ++ c = a ++ (b ++ c).
Proof.
  induction a as [|x a IH]; cbn; [reflexivity | now rewrite IH].
Qed.

Lemma append_length (a b : string) :
  String.length (a ++ b) = (String.length a + String.length b)%nat.
Proof.
  induction a as [|x a IH]; cbn; [reflexivity | now rewrite IH].
Qed.

Lemma append_empty_r (a : string) : a ++ "" = a.
Proof.
  induction a as [|x a IH]; cbn; [reflexivity | now rewrite IH].
Qed.

(** Of two decompositions of a string, the one with the shorter first part
    has the longer second part. *)
Lemma append_overlap (a b a' b' : string) :
  a ++ b = a' ++ b' -> (String.length a <= String.length a')%nat ->
  exists z, a' = a ++ z /\ b = z ++ b'.
Proof.
  revert a'. induction a as [|x a IH]; intros a' H Hlen; cbn in *.
  - exists a'. now split.
  - destruct a' as [|x' a']; cbn in *; [lia|].
    injection H as -> H. destruct (IH a' H) as (z & -> & ->); [lia|].
    now exists z.
Qed.

Lemma append_same_length (a b a' b' : string) :
  a ++ b = a' ++ b' -> String.length a = String.length a' ->
  a = a' /\ b = b'.
Proof.
  intros H Hlen. destruct (append_overlap a b a' b' H) as (z & -> & ->);
    [lia|].
  rewrite append_length in Hlen. destruct z; cbn in Hlen; [|lia].
  now rewrite append_empty_r.
Qed.

Lemma stripPrefix_spec (p s r : string) :
  stripPrefix p s = Some r <-> s = p ++ r.
Proof.
  revert s. induction p as [|a p IH]; intros s; cbn.
  - split; [now intros [= ->] | now intros ->].
  - destruct s as [|b s]; [split; discriminate|].
    destruct (Ascii.eqb_spec a b) as [-> | Hne].
    + rewrite IH. split; [now intros -> | now intros [= ->]].
    + split; [discriminate | intros [= E _]; congruence].
Qed.

Lemma splitAtFirst_sound (pat s b a : string) :
  splitAtFirst pat s = Some (b, a) -> s = b ++ pat ++ a.
Proof.
  revert b. induction s as [|c s IH]; intros b; cbn [splitAtFirst].
  - destruct (stripPrefix pat "") as [r|] eqn:E; [|discriminate].
    intros [= <- <-]. apply stripPrefix_spec in E. exact E.
  - destruct (stripPrefix pat (String c s)) as [r|] eqn:E.
    + intros [= <- <-]. apply stripPrefix_spec in E. exact E.
    + destruct (splitAtFirst pat s) as [[b' a']|]; [|discriminate].
      intros [= <- <-]. cbn [append]. f_equal. now apply IH.
Qed.

(** No occurrence of the pattern starts before the one that is found. *)
Lemma splitAtFirst_leftmost (pat s b a b' a' : string) :
  splitAtFirst pat s = Some (b, a) -> s = b' ++ pat ++ a' ->
  (String.length b <= String.length b')%nat.
Proof.
  revert b b'. induction s as [|c s IH]; intros b b'; cbn [splitAtFirst].
  - destruct (stripPrefix pat ""); [|discriminate].
    intros [= <- <-] _. cbn. lia.
  - destruct (stripPrefix pat (String c s)) as [r|] eqn:E.
    + intros [= <- <-] _. cbn. lia.
    + destruct (splitAtFirst pat s) as [[b0 a0]|] eqn:E0; [|discriminate].
      intros [= <- <-] H. destruct b' as [|c' b'].
      * cbn in H. apply stripPrefix_spec in H. congruence.
      * cbn in H. injection H as _ H. cbn.
        apply le_n_S. now apply (IH b0 b' eq_refl).
Qed.

Lemma splitAtFirst_complete (pat s b' a' : string) :
  s = b' ++ pat ++ a' -> exists b a, splitAtFirst pat s = Some (b, a).
Proof.
  revert b'. induction s as [|c s IH]; intros b' H; cbn [splitAtFirst].
  - destruct b'; [|discriminate H]. cbn in H.
    apply stripPrefix_spec in H. rewrite H. now eexists _, _.
  - destruct (stripPrefix pat (String c s)) as [r|] eqn:E;
      [now eexists _, _|].
    destruct b' as [|c' b'].
    + cbn in H. apply stripPrefix_spec in H. congruence.
    + cbn in H. injection H as _ H.
      destruct (IH b' H) as (b & a & ->). now eexists _, _.
Qed.

(** Text appended to a string does not move the leftmost occurrence. *)
Lemma splitAtFirst_append (pat s t b a : string) :
  splitAtFirst pat s = Some (b, a) ->
  splitAtFirst pat (s ++ t) = Some (b, a ++ t).
Proof.
  assert (Hstrip : forall s r, stripPrefix pat s = Some r ->
                     stripPrefix pat (s ++ t) = Some (r ++ t)).
  { intros s0 r H. apply stripPrefix_spec in H. subst s0.
    apply stripPrefix_spec. apply append_assoc. }
  revert b. induction s as [|c s IH]; intros b; cbn [splitAtFirst].
  - destruct (stripPrefix pat "") as [r|] eqn:E; [|discriminate].
    intros [= <- <-]. apply Hstrip in E. cbn [append] in *.
    destruct t; cbn [splitAtFirst]; now rewrite E.
  - destruct (stripPrefix pat (String c s)) as [r|] eqn:E.
    + intros [= <- <-]. apply Hstrip in E. cbn [append] in *.
      cbn [splitAtFirst]. now rewrite E.
    + destruct (splitAtFirst pat s) as [[b0 a0]|] eqn:E0; [|discriminate].
      intros [= <- <-]. cbn [append splitAtFirst].
      rewrite (IH b0 eq_refl).
      destruct (stripPrefix pat (String c (s ++ t))) as [r|] eqn:E';
        [|reflexivity].
      exfalso. apply stripPrefix_spec in E'.
      apply splitAtFirst_sound in E0. rewrite E0 in E'.
      change (String c ((b0 ++ pat ++ a0) ++ t))
        with (String c (b0 ++ pat ++ a0) ++ t) in E'.
      assert (Hs : String c s = String c (b0 ++ pat ++ a0)) by now rewrite E0.
      (* the pattern fits inside the part before [t] *)
      assert (Hlen : (String.length pat
                      <= String.length (String c (b0 ++ pat ++ a0)))%nat).
      { cbn. rewrite !append_length. lia. }
      symmetry in E'.
      destruct (append_overlap pat r (String c (b0 ++ pat ++ a0)) t E' Hlen)
        as (z & Hz & _).
      rewrite <- Hs in Hz. apply stripPrefix_spec in Hz.
      congruence.
Qed.

Lemma split_no_separator (sep : ascii) (s : string) :
  ~ occurs sep s -> split sep s = [s].
Proof.
  induction s as [|c s IH]; cbn [split occurs]; [reflexivity|].
  intros H. destruct (Ascii.eqb_spec c sep) as [-> | _]; [tauto|].
  rewrite IH; tauto.
Qed.

Lemma split_at_separator (sep : ascii) (a b : string) :
  ~ occurs sep a ->
  split sep (a ++ String sep b) = a :: split sep b.
Proof.
  induction a as [|c a IH]; cbn [append split occurs]; intros H.
  - now rewrite Ascii.eqb_refl.
  - destruct (Ascii.eqb_spec c sep) as [-> | _]; [tauto|].
    rewrite IH; tauto.
Qed.

(** The second field of a string with exactly one separator. *)
Lemma split_second (sep : ascii) (a b : string) :
  ~ occurs sep a -> ~ occurs sep b ->
  nth_error (split sep (a ++ String sep b)) 1 = Some b.
Proof.
  intros Ha Hb. rewrite split_at_separator by exact Ha.
  now rewrite split_no_separator.
Qed.

(** ** Extracting the JSON block of a reply *)

(** X15. [matchJsonFence] finds nothing exactly when the reply contains no
    opening fence followed, after it, by a closing fence.  When it finds a
    body, the body lies between the leftmost opening fence of the reply and
    the first closing fence after it: no decomposition of the reply has an
    earlier opening fence, and none with the same opening fence has a shorter
    body. *)
Theorem matchJsonFence_spec (t : string) :
  (ChatInterface.matchJsonFence t = None <->
     ~ exists pre body post,
         t = pre ++ ChatInterface.fenceOpen ++ body
               ++ ChatInterface.fenceClose ++ post)
  /\ (forall body,
        ChatInterface.matchJsonFence t = Some body ->
        exists pre post,
          t = pre ++ ChatInterface.fenceOpen ++ body
                ++ ChatInterface.fenceClose ++ post
          /\ forall pre' body' post',
               t = pre' ++ ChatInterface.fenceOpen ++ body'
                     ++ ChatInterface.fenceClose ++ post' ->
               (String.length pre <= String.length pre')%nat
               /\ (String.length pre' = String.length pre ->
                   (String.length body <= String.length body')%nat)).
Proof.
  unfold ChatInterface.matchJsonFence.
  set (op := ChatInterface.fenceOpen). set (cl := ChatInterface.fenceClose).
  split.
  - split.
    + intros Hnone (pre & body & post & Ht).
      destruct (splitAtFirst_complete op t pre _ Ht) as (b & a & E).
      rewrite E in Hnone.
      pose proof (splitAtFirst_leftmost _ _ _ _ _ _ E Ht) as Hle.
      apply splitAtFirst_sound in E. rewrite Ht in E.
      rewrite <- !append_assoc in E.
      destruct (append_overlap (b ++ op) a (pre ++ op)
                  ((body ++ cl) ++ post))
        as (z & _ & Ha).
      { rewrite !append_assoc in *. now symmetry. }
      { rewrite !append_length. lia. }
      assert (Ha' : a = (z ++ body) ++ cl ++ post)
        by (rewrite Ha, !append_assoc; reflexivity).
      destruct (splitAtFirst_complete cl a (z ++ body) post Ha')
        as (b1 & a1 & E1).
      rewrite E1 in Hnone. discriminate Hnone.
    + intros Hno.
      destruct (splitAtFirst op t) as [[b a]|] eqn:E; [|reflexivity].
      destruct (splitAtFirst cl a) as [[b1 a1]|] eqn:E1; [|reflexivity].
      exfalso. apply Hno. exists b, b1, a1.
      apply splitAtFirst_sound in E, E1. now rewrite E, E1.
  - intros body.
    destruct (splitAtFirst op t) as [[b a]|] eqn:E; [|discriminate].
    destruct (splitAtFirst cl a) as [[b1 a1]|] eqn:E1; [|discriminate].
    intros [= <-]. exists b, a1.
    pose proof (splitAtFirst_sound _ _ _ _ E) as Ht.
    pose proof (splitAtFirst_sound _ _ _ _ E1) as Ha.
    split; [now rewrite Ht, Ha|].
    intros pre' body' post' Ht'.
    split; [exact (splitAtFirst_leftmost _ _ _ _ _ _ E Ht')|].
    intros Hlen. rewrite Ht in Ht'. symmetry in Ht'.
    destruct (append_same_length _ _ _ _ Ht' Hlen) as [_ Hrest].
    destruct (append_same_length op _ op _ Hrest eq_refl) as [_ Hrest'].
    symmetry in Hrest'.
    exact (splitAtFirst_leftmost _ _ _ _ _ _ E1 Hrest').
Qed.

Example matchJsonFence_reply :
  ChatInterface.jsonToParse
    ("Use two nodes." ++ nl ++ "```json" ++ nl ++ "{" ++ dq ++ "nodes" ++ dq
       ++ ": []}" ++ nl ++ "```" ++ nl ++ "Then a second block:" ++ nl
       ++ "```json" ++ nl ++ "{}" ++ nl ++ "```")
  = Some ("{" ++ dq ++ "nodes" ++ dq ++ ": []}")
  /\ ChatInterface.jsonToParse ("```json" ++ nl ++ nl ++ "```") = None
  /\ ChatInterface.jsonToParse ("```json" ++ nl ++ "```") = None.
Proof.
  repeat split.
Qed.

(** ** The reply of the model service *)

Lemma concat_cons (x : string) (xs : list string) :
  String.concat "" (x :: xs) = x ++ String.concat "" xs.
Proof.
  destruct xs; cbn; [now rewrite append_empty_r | reflexivity].
Qed.

Lemma sourceLinks_uris (chunks : list GeminiService.GroundingChunk) :
  GeminiService.sourceLinks chunks
  = String.concat ""
      (map (fun u => nl ++ "Source: " ++ u)
         (flat_map
            (fun ch =>
               match GeminiService.web ch with
               | Some w =>
                   match GeminiService.uri w with
                   | Some u => if String.eqb u "" then [] else [u]
                   | None => []
                   end
               | None => []
               end) chunks)).
Proof.
  unfold GeminiService.sourceLinks.
  induction chunks as [|ch chunks IH]; [reflexivity|].
  cbn [map filter flat_map].
  destruct (GeminiService.web ch) as [w|]; [|exact IH].
  destruct (GeminiService.uri w) as [u|]; [|exact IH].
  change (truthy (Some u)) with (negb (String.eqb u "")).
  destruct (String.eqb u ""); [exact IH|].
  cbn [negb map List.app]. rewrite !concat_cons. now rewrite IH.
Qed.

Lemma replyText_uris (r : GeminiService.Response) :
  GeminiService.replyText r
  = match groundingUris r with
    | [] => orElse (GeminiService.responseText r) ""
    | us =>
        orElse (GeminiService.responseText r) "" ++ nl ++ nl
          ++ String.concat "" (map (fun u => nl ++ "Source: " ++ u) us)
    end.
Proof.
  unfold GeminiService.replyText, groundingUris.
  destruct (GeminiService.firstCandidate r) as [c|]; [|reflexivity].
  destruct (GeminiService.groundingChunks c) as [chunks|]; [|reflexivity].
  rewrite sourceLinks_uris.
  destruct (flat_map _ chunks) as [|u us]; [reflexivity|].
  cbn [map]. rewrite concat_cons. reflexivity.
Qed.

(** X16. The reply of [sendMessageToGemini] is the text of the response
    (the empty string when it has none), followed, when the grounding chunks
    of the first candidate carry at least one non-empty uri, by an empty line
    and one ["Source: uri"] line per such uri, in order.  When the call to
    the model throws, the reply is the fixed error sentence, in which no
    JSON block is found. *)
Theorem reply_text_sources
  (generateContent : GeminiService.Request -> Outcome GeminiService.Response)
  (prompt : string) (history : list string)
  (image : option GeminiService.InlineData) (useSearch : bool) :
  let reply := GeminiService.sendMessageToGemini generateContent prompt
                 history image useSearch in
  match generateContent
          (GeminiService.chatRequest prompt history image useSearch) with
  | Returned r =>
      reply
      = match groundingUris r with
        | [] => orElse (GeminiService.responseText r) ""
        | us =>
            orElse (GeminiService.responseText r) "" ++ nl ++ nl
              ++ String.concat "" (map (fun u => nl ++ "Source: " ++ u) us)
        end
  | Thrown =>
      reply
      = "I encountered an error processing your request. Please try again."
      /\ ChatInterface.jsonToParse reply = None
  end.
Proof.
  cbv zeta. unfold GeminiService.sendMessageToGemini.
  destruct (generateContent _) as [r|].
  - apply replyText_uris.
  - split; reflexivity.
Qed.

(** X17. The source lines appended to the text of the response never change
    the JSON block extracted from the reply: the block found in the text
    alone is the block found in the reply. *)
Theorem reply_keeps_json_block
  (generateContent : GeminiService.Request -> Outcome GeminiService.Response)
  (prompt : string) (history : list string)
  (image : option GeminiService.InlineData) (useSearch : bool)
  (r : GeminiService.Response) (body : string)
  (Hr : generateContent
          (GeminiService.chatRequest prompt history image useSearch)
        = Returned r)
  (Hb : ChatInterface.matchJsonFence (orElse (GeminiService.responseText r) "")
        = Some body) :
  ChatInterface.matchJsonFence
    (GeminiService.sendMessageToGemini generateContent prompt history image
       useSearch)
  = Some body.
Proof.
  unfold GeminiService.sendMessageToGemini. rewrite Hr, replyText_uris.
  destruct (groundingUris r) as [|u us]; [exact Hb|].
  unfold ChatInterface.matchJsonFence in *.
  destruct (splitAtFirst ChatInterface.fenceOpen
              (orElse (GeminiService.responseText r) ""))
    as [[b a]|] eqn:E; [|discriminate Hb].
  destruct (splitAtFirst ChatInterface.fenceClose a) as [[b1 a1]|] eqn:E1;
    [|discriminate Hb].
  rewrite (splitAtFirst_append _ _ _ _ _ E).
  rewrite (splitAtFirst_append _ _ _ _ _ E1). exact Hb.
Qed.

Lemma reply_keeps_json_block_witness :
  let r := GeminiService.mkResponse
             (Some ("```json" ++ nl ++ "{}" ++ nl ++ "```"))
             (Some [GeminiService.mkCandidate None
                      (Some [GeminiService.mkGroundingChunk
                               (Some (GeminiService.mkWebSource
                                        (Some "https://dev.epicgames.com")));
                             GeminiService.mkGroundingChunk None])]) in
  ChatInterface.matchJsonFence
    (GeminiService.sendMessageToGemini (fun _ => Returned r) "jump" [] None
       true)
  = Some "{}".
Proof.
  intros r.
  exact (reply_keeps_json_block (fun _ => Returned r) "jump" [] None true r
           "{}" eq_refl eq_refl).
Defined.

(** ** Attachments *)

Lemma append_cancel_r (a b t : string) : a ++ t = b ++ t -> a = b.
Proof.
  intros H. apply (append_same_length a t b t H).
  apply (f_equal String.length) in H. rewrite !append_length in H. lia.
Qed.

(** X18. For an uploaded file read as ["data:<urlType>;base64,<payload>"],
    with no comma in [urlType] or the payload, the attachment holds the
    payload and the [type] of the file, which is also the inline data sent to
    the model; the image rendered for the message is
    ["data:<file type>;base64,<payload>"], and it is the data URL that was
    read exactly when the [type] of the file is the media type of that
    URL. *)
Theorem upload_round_trip (urlType fileType payload : string)
  (Htype : ~ occurs ","%char urlType)
  (Hpayload : ~ occurs ","%char payload) :
  let url := "data:" ++ urlType ++ ";base64," ++ payload in
  let a := ChatInterface.onloadend url fileType in
  ChatInterface.a_data a = Some payload
  /\ ChatInterface.a_mimeType a = fileType
  /\ ChatInterface.attachmentSrc a
     = "data:" ++ fileType ++ ";base64," ++ payload
  /\ (ChatInterface.attachmentSrc a = url <-> fileType = urlType)
  /\ ChatInterface.imageAttachment (Some a)
     = Some (GeminiService.mkInlineData (Some payload) fileType).
Proof.
  intros url a.
  assert (Hdata : ChatInterface.a_data a = Some payload).
  { unfold a, ChatInterface.onloadend. cbn [ChatInterface.a_data]. unfold url.
    replace ("data:" ++ urlType ++ ";base64," ++ payload)
      with (("data:" ++ urlType ++ ";base64") ++ String ","%char payload).
    - apply split_second; [|exact Hpayload].
      change ("data:" ++ urlType ++ ";base64")
        with ("data:" ++ (urlType ++ ";base64")).
      rewrite !occurs_append. cbn.
      intros [H | [H | H]]; try contradiction;
        repeat (destruct H as [H | H]; [discriminate H|]); exact H.
    - change ("data:" ++ urlType ++ ";base64")
        with ("data:" ++ (urlType ++ ";base64")).
      now rewrite !append_assoc. }
  assert (Hsrc : ChatInterface.attachmentSrc a
                 = "data:" ++ fileType ++ ";base64," ++ payload).
  { unfold ChatInterface.attachmentSrc. now rewrite Hdata. }
  split; [exact Hdata|]. split; [reflexivity|]. split; [exact Hsrc|].
  split.
  - rewrite Hsrc. unfold url. split.
    + intros H. cbn [append] in H. injection H as H.
      now apply append_cancel_r in H.
    + now intros ->.
  - unfold ChatInterface.imageAttachment. now rewrite Hdata.
Qed.

(** A file without a type, read as an octet stream: the rendered image is
    not the URL that was read. *)
Lemma upload_round_trip_witness :
  let a := ChatInterface.onloadend
             "data:application/octet-stream;base64,QUJD" "" in
  ChatInterface.a_data a = Some "QUJD"
  /\ ChatInterface.attachmentSrc a = "data:;base64,QUJD"
  /\ ChatInterface.attachmentSrc
       (ChatInterface.onloadend "data:image/png;base64,iVBORw0KGgo="
          "image/png")
     = "data:image/png;base64,iVBORw0KGgo=".
Proof.
  intros a.
  assert (H1 : ~ occurs ","%char "application/octet-stream").
  { cbn. intros H.
    repeat (destruct H as [H | H]; [discriminate H|]). exact H. }
  assert (H2 : ~ occurs ","%char "QUJD").
  { cbn. intros H.
    repeat (destruct H as [H | H]; [discriminate H|]). exact H. }
  assert (H3 : ~ occurs ","%char "image/png").
  { cbn. intros H.
    repeat (destruct H as [H | H]; [discriminate H|]). exact H. }
  assert (H4 : ~ occurs ","%char "iVBORw0KGgo=").
  { cbn. intros H.
    repeat (destruct H as [H | H]; [discriminate H|]). exact H. }
  destruct (upload_round_trip "application/octet-stream" "" "QUJD" H1 H2)
    as (Hdata & _ & Hsrc & _).
  destruct (upload_round_trip "image/png" "image/png" "iVBORw0KGgo=" H3 H4)
    as (_ & _ & Hsrc' & _).
  split; [exact Hdata|]. split; [exact Hsrc | exact Hsrc'].
Defined.

Lemma firstInlineImage_first (pre post : list GeminiService.Part)
  (p : GeminiService.Part) (d : GeminiService.InlineData) :
  Forall (fun q => GeminiService.inlineData q = None) pre ->
  GeminiService.inlineData p = Some d ->
  GeminiService.firstInlineImage (pre ++ p :: post)
  = Some ("data:image/png;base64," ++ interpolate (GeminiService.data d)).
Proof.
  intros Hpre Hp. induction Hpre as [|q pre Hq _ IH]; cbn.
  - now rewrite Hp.
  - now rewrite Hq.
Qed.

Lemma firstInlineImage_none (ps : list GeminiService.Part) :
  GeminiService.firstInlineImage ps = None
  <-> Forall (fun q => GeminiService.inlineData q = None) ps.
Proof.
  induction ps as [|q ps IH]; cbn.
  - split; [constructor | reflexivity].
  - destruct (GeminiService.inlineData q) as [d|] eqn:E.
    + split; [discriminate|]. intros H. inversion H. congruence.
    + rewrite IH. split; [now constructor | intros H; now inversion H].
Qed.

(** X19. When the first part of the first candidate that carries inline
    data holds the data [payload] (with no comma in it),
    [generateBlueprintImage] returns the PNG data URL of [payload], whatever
    the mime type of the part; [handleGenerateImage] shows that URL, clears
    the busy flag and appends one bot message whose rendered attachment is
    the same URL. *)
Theorem generated_image_round_trip
  (generateContent : GeminiService.Request -> Outcome GeminiService.Response)
  (prompt aspectRatio : string) (now date : Z)
  (st : ChatInterface.ImageState)
  (r : GeminiService.Response) (c : GeminiService.Candidate)
  (pre post : list GeminiService.Part) (p : GeminiService.Part)
  (d : GeminiService.InlineData) (payload : string)
  (Hr : generateContent (GeminiService.imageRequest prompt aspectRatio)
        = Returned r)
  (Hc : GeminiService.firstCandidate r = Some c)
  (Hps : GeminiService.content c = Some (pre ++ p :: post)%list)
  (Hpre : Forall (fun q => GeminiService.inlineData q = None) pre)
  (Hp : GeminiService.inlineData p = Some d)
  (Hd : GeminiService.data d = Some payload)
  (Hpayload : ~ occurs ","%char payload) :
  let url := "data:image/png;base64," ++ payload in
  let outcome :=
    GeminiService.generateBlueprintImage generateContent prompt aspectRatio in
  let st' := ChatInterface.handleGenerateImage prompt outcome now date st in
  outcome = Returned (Some url)
  /\ ChatInterface.generatedImage st' = Some url
  /\ ChatInterface.isGeneratingImage st' = false
  /\ exists m,
       ChatInterface.messages st' = (ChatInterface.messages st ++ [m])%list
       /\ ChatInterface.m_sender m = ChatInterface.BOT
       /\ option_map ChatInterface.attachmentSrc (ChatInterface.m_attachment m)
          = Some url.
Proof.
  intros url outcome st'.
  assert (Hout : outcome = Returned (Some url)).
  { unfold outcome, GeminiService.generateBlueprintImage.
    rewrite Hr, Hc, Hps. rewrite (firstInlineImage_first pre post p d Hpre Hp).
    now rewrite Hd. }
  assert (Hsplit : nth_error (split ","%char url) 1 = Some payload).
  { unfold url.
    change ("data:image/png;base64," ++ payload)
      with ("data:image/png;base64" ++ String ","%char payload).
    apply split_second; [|exact Hpayload].
    cbn. intros H.
    repeat (destruct H as [H | H]; [discriminate H|]). exact H. }
  split; [exact Hout|]. unfold st'. rewrite Hout.
  unfold ChatInterface.handleGenerateImage.
  change (whenTruthy (Some url)) with (Some url).
  cbn [ChatInterface.generatedImage ChatInterface.isGeneratingImage
       ChatInterface.messages].
  split; [reflexivity|]. split; [reflexivity|].
  eexists. split; [reflexivity|].
  cbn [ChatInterface.m_sender ChatInterface.m_attachment option_map].
  split; [reflexivity|].
  unfold ChatInterface.attachmentSrc.
  cbn [ChatInterface.a_data ChatInterface.a_mimeType].
  now rewrite Hsplit.
Qed.

Lemma generated_image_round_trip_witness :
  let r := GeminiService.mkResponse None
             (Some [GeminiService.mkCandidate
                      (Some [GeminiService.mkPart None (Some "Here it is");
                             GeminiService.mkPart
                               (Some (GeminiService.mkInlineData (Some "AAAA")
                                        "image/jpeg")) None])
                      None]) in
  let st := ChatInterface.mkImageState [] None true in
  let st' := ChatInterface.handleGenerateImage "a stone texture"
               (GeminiService.generateBlueprintImage (fun _ => Returned r)
                  "a stone texture" "1:1") 5 5 st in
  ChatInterface.generatedImage st' = Some "data:image/png;base64,AAAA"
  /\ ChatInterface.isGeneratingImage st' = false.
Proof.
  intros r st st'.
  assert (Hpayload : ~ occurs ","%char "AAAA").
  { cbn. intros H.
    repeat (destruct H as [H | H]; [discriminate H|]). exact H. }
  assert (Hpre : Forall (fun q => GeminiService.inlineData q = None)
                   [GeminiService.mkPart None (Some "Here it is")])
    by (constructor; [reflexivity | constructor]).
  destruct (generated_image_round_trip (fun _ => Returned r)
              "a stone texture" "1:1" 5 5 st r
              (GeminiService.mkCandidate
                 (Some [GeminiService.mkPart None (Some "Here it is");
                        GeminiService.mkPart
                          (Some (GeminiService.mkInlineData (Some "AAAA")
                                   "image/jpeg")) None])
                 None)
              [GeminiService.mkPart None (Some "Here it is")] []
              (GeminiService.mkPart
                 (Some (GeminiService.mkInlineData (Some "AAAA") "image/jpeg"))
                 None)
              (GeminiService.mkInlineData (Some "AAAA") "image/jpeg") "AAAA"
              eq_refl eq_refl eq_refl Hpre eq_refl eq_refl Hpayload)
    as (_ & Himg & Hbusy & _).
  split; [exact Himg | exact Hbusy].
Defined.

(** X20. Whatever the outcome of the image request, [handleGenerateImage]
    keeps the earlier messages and appends at most one, clears the busy
    flag, and shows an image only if it appended a bot message carrying an
    attachment; a thrown request appends exactly one message without
    attachment and a request without image appends none. *)
Theorem image_outcomes (input : string) (outcome : Outcome (option string))
  (now date : Z) (st : ChatInterface.ImageState) :
  let st' := ChatInterface.handleGenerateImage input outcome now date st in
  ChatInterface.isGeneratingImage st' = false
  /\ (exists added, ChatInterface.messages st'
                    = (ChatInterface.messages st ++ added)%list
                    /\ (List.length added <= 1)%nat
                    /\ (ChatInterface.generatedImage st' <> None <->
                        exists m a, added = [m]
                                    /\ ChatInterface.m_attachment m = Some a)
                    /\ (outcome = Thrown <->
                        exists m, added = [m]
                                  /\ ChatInterface.m_attachment m = None)).
Proof.
  intros st'. unfold st', ChatInterface.handleGenerateImage.
  destruct outcome as [[url|]|].
  - unfold whenTruthy, truthy, truthy_nullable, truthy, truthy_string.
    destruct (String.eqb url "").
    + cbn. split; [reflexivity|]. exists []. rewrite app_nil_r.
      repeat split; try (cbn; lia); try congruence;
        try (intros (m & a & H & _); discriminate H);
        try (intros (m & H & _); discriminate H).
    + cbn. split; [reflexivity|]. eexists [_]. split; [reflexivity|].
      split; [cbn; lia|]. split.
      * split; [intros _; now eexists _, _ | discriminate].
      * split; [discriminate | intros (m & [= <-] & H); discriminate H].
  - cbn. split; [reflexivity|]. exists []. rewrite app_nil_r.
    repeat split; try (cbn; lia); try congruence;
      try (intros (m & a & H & _); discriminate H);
      try (intros (m & H & _); discriminate H).
  - cbn. split; [reflexivity|]. eexists [_]. split; [reflexivity|].
    split; [cbn; lia|]. split.
    + split; [congruence | intros (m & a & [= <-] & H); discriminate H].
    + split; [intros _; now eexists | reflexivity].
Qed.

(** * The line of a pending draw *)

Lemma moves_anchor (ms : list (Q * Q * option Point)) (s : State)
  (d : Drawing) :
  selectedNode s = None -> drawingConnection s = Some d ->
  exists d', drawingConnection (run s (moveEvents ms)) = Some d'
             /\ startX d' = startX d /\ startY d' = startY d
             /\ selectedNode (run s (moveEvents ms)) = None.
Proof.
  revert s d. induction ms as [|m ms IH]; intros s d Hsel Hd.
  - exists d. now repeat split.
  - cbn [moveEvents map run fold_left step].
    set (s1 := handleMouseMove (fst (fst m)) (snd (fst m)) (snd m) s).
    assert (H1 : selectedNode s1 = None
                 /\ exists d1, drawingConnection s1 = Some d1
                               /\ startX d1 = startX d
                               /\ startY d1 = startY d).
    { unfold s1, handleMouseMove. rewrite Hsel, Hd. cbn.
      destruct (snd m); cbn; (split; [exact Hsel|]); eexists;
        (split; [reflexivity || exact Hd|]); now split. }
    destruct H1 as (Hsel1 & d1 & Hd1 & Hx & Hy).
    destruct (IH s1 d1 Hsel1 Hd1) as (d' & Hd' & Hx' & Hy' & Hsel').
    exists d'. unfold run, moveEvents in *. rewrite Hd'.
    repeat split; congruence.
Qed.

(** X21. With no node drag active, pressing on a pin of a node of the
    collection starts a line that is anchored at the position of that pin
    and of zero extent; after any pointer moves its anchor is unchanged and
    its free end is the last pointer position relative to the canvas. *)
Theorem drag_line_follows_pointer (s : State) (nodeId pin : string)
  (isIn : bool) (idx : nat) (n : BlueprintNode)
  (ms : list (Q * Q * option Point)) (cx cy : Q) (r : Point)
  (Hidle : selectedNode s = None)
  (Hn : findNode (nodes s) nodeId = Some n) :
  let p := getNodePinPos n (ofIndex idx) isIn in
  let s0 := step s (PinMouseDown nodeId pin isIn idx) in
  renderDragLine s0 = Some (getPathD (px p) (py p) (px p) (py p))
  /\ renderDragLine (run s0 (moveEvents (ms ++ [(cx, cy, Some r)])))
     = Some (getPathD (px p) (py p) (cx - px r) (cy - py r)).
Proof.
  intros p s0.
  assert (Hs0 : selectedNode s0 = None
                /\ drawingConnection s0
                   = Some (mkDrawing nodeId pin isIn (px p) (py p) (px p)
                             (py p))).
  { unfold s0. cbn [step]. unfold handlePinMouseDown. rewrite Hn.
    now split. }
  destruct Hs0 as [Hsel0 Hd0].
  split; [unfold renderDragLine; now rewrite Hd0|].
  unfold moveEvents, run. rewrite map_app, fold_left_app.
  cbn [map fold_left fst snd step].
  destruct (moves_anchor ms s0 _ Hsel0 Hd0) as (d' & Hd' & Hx & Hy & Hsel').
  unfold run, moveEvents in Hd', Hsel'.
  unfold renderDragLine, handleMouseMove. rewrite Hsel', Hd'. cbn.
  now rewrite Hx, Hy.
Qed.

Lemma drag_line_follows_pointer_witness :
  let n1 := Node.mk "node-0-0" "Event Jump" "event" 100 100 [] ["Out"] in
  let s := mkState [n1] [] None None None in
  renderDragLine
    (run (step s (PinMouseDown "node-0-0" "Out" false 0))
       (moveEvents ([(260, 150, Some (mkPoint 0 0))]
                      ++ [(300, 180, Some (mkPoint 10 20))])))
  = Some (getPathD 248 146 (300 - 10) (180 - 20)).
Proof.
  intros n1 s.
  exact (proj2 (drag_line_follows_pointer s "node-0-0" "Out" false 0 n1
                  [(260, 150, Some (mkPoint 0 0))] 300 180 (mkPoint 10 20)
                  eq_refl eq_refl)).
Defined.

(** * Sending a message *)

(** X22. [handleSend] does nothing while a reply is awaited, and nothing
    for a blank input without attachment.  Otherwise it clears the input and
    the attachment and appends exactly the user message and then a bot
    message holding the reply, also when the block of the reply cannot be
    parsed.  It never removes or changes a node: the nodes afterwards are the
    old ones, followed by the nodes created for the descriptors exactly when
    the reply has a non-empty block that parses to a node list. *)
Theorem handleSend_effects (trim : string -> string)
  (generateContent : GeminiService.Request -> Outcome GeminiService.Response)
  (parseNodes : string -> Outcome (option (list ChatInterface.Descriptor)))
  (useSearch : bool) (nowUser dateUser : Z) (clock : nat -> Z)
  (nowBot dateBot : Z) (st : ChatInterface.ChatState)
  (ns : list BlueprintNode) :
  let result := ChatInterface.handleSend trim generateContent parseNodes
                  useSearch nowUser dateUser clock nowBot dateBot st ns in
  let blocked :=
    ChatInterface.isLoading st = true
    \/ (trim (ChatInterface.input st) = ""
        /\ ChatInterface.attachment st = None) in
  let reply :=
    GeminiService.sendMessageToGemini generateContent
      (ChatInterface.input st)
      (map (fun m => ChatInterface.senderValue (ChatInterface.m_sender m)
                     ++ ": " ++ ChatInterface.m_text m)
         (ChatInterface.chatMessages st))
      (ChatInterface.imageAttachment (ChatInterface.attachment st))
      useSearch in
  (blocked -> result = (st, ns))
  /\ (~ blocked ->
      (exists userMsg botMsg,
         ChatInterface.chatMessages (fst result)
         = (ChatInterface.chatMessages st ++ [userMsg; botMsg])%list
         /\ ChatInterface.m_sender userMsg = ChatInterface.USER
         /\ ChatInterface.m_text userMsg = ChatInterface.input st
         /\ ChatInterface.m_attachment userMsg = ChatInterface.attachment st
         /\ ChatInterface.m_sender botMsg = ChatInterface.BOT
         /\ ChatInterface.m_text botMsg = reply
         /\ ChatInterface.m_attachment botMsg = None)
      /\ ChatInterface.input (fst result) = ""
      /\ ChatInterface.attachment (fst result) = None
      /\ ChatInterface.isLoading (fst result) = false
      /\ (forall json ds,
            ChatInterface.jsonToParse reply = Some json ->
            parseNodes json = Returned (Some ds) ->
            snd result = ChatInterface.injectNodes clock ds ns))
  /\ (snd result = ns
      \/ exists json ds,
           ChatInterface.jsonToParse reply = Some json
           /\ parseNodes json = Returned (Some ds)
           /\ snd result = ChatInterface.injectNodes clock ds ns).
Proof.
  intros result blocked reply. unfold result, ChatInterface.handleSend.
  assert (Hguard :
            (negb (truthy (trim (ChatInterface.input st)))
             && negb (match ChatInterface.attachment st with
                      | Some _ => true
                      | None => false
                      end)
             || ChatInterface.isLoading st) = true <-> blocked).
  { unfold blocked, truthy, truthy_string.
    rewrite orb_true_iff, andb_true_iff, !negb_true_iff, negb_false_iff,
      String.eqb_eq.
    destruct (ChatInterface.attachment st); split;
      intros [H | H]; try tauto; try (right; tauto);
      try (destruct H; discriminate). }
  destruct (_ || _) eqn:E.
  - split; [reflexivity|]. split; [|now left].
    intros Hnot. exfalso. now apply Hnot, Hguard.
  - split; [intros Hb; apply Hguard in Hb; discriminate Hb|].
    cbn [fst snd ChatInterface.m_text ChatInterface.m_attachment
         ChatInterface.chatMessages ChatInterface.input
         ChatInterface.attachment ChatInterface.isLoading].
    fold reply. split.
    + intros _. split; [eexists _, _; now repeat split|].
      split; [reflexivity|]. split; [reflexivity|]. split; [reflexivity|].
      intros json ds -> ->. reflexivity.
    + destruct (ChatInterface.jsonToParse reply) as [json|]; [|now left].
      destruct (parseNodes json) as [[ds|]|] eqn:Ep; try now left.
      right. now exists json, ds.
Qed.

(** A reply with a fenced block, with stand-ins for [trim] and for the JSON
    parser: two messages are appended and two nodes are injected after the
    existing one. *)
Example handleSend_reply :
  let block := "{" ++ dq ++ "nodes" ++ dq ++ ": [...]}" in
  let response :=
    GeminiService.mkResponse
      (Some ("Use two nodes." ++ nl ++ "```json" ++ nl ++ block ++ nl
               ++ "```"))
      None in
  let parseNodes := fun json : string =>
    if String.eqb json block
    then Returned
           (Some [ChatInterface.mkDescriptor "Event Jump" (Some "event") None
                    (Some ["Out"]);
                  ChatInterface.mkDescriptor "Launch Character" None
                    (Some ["In"]) None])
    else Thrown in
  let old := Node.mk "node-1-0" "Branch" "function" 100 100 ["In"] ["True"] in
  let result :=
    ChatInterface.handleSend (fun s => s) (fun _ => Returned response)
      parseNodes false 10 10 (fun _ => 20%Z) 30 30
      (ChatInterface.mkChatState "double jump" [] false None) [old] in
  map ChatInterface.m_sender (ChatInterface.chatMessages (fst result))
  = [ChatInterface.USER; ChatInterface.BOT]
  /\ map ChatInterface.m_id (ChatInterface.chatMessages (fst result))
     = ["10"; "31"]
  /\ map (fun n => (Node.id n, Node.type n, Node.x n, Node.y n)) (snd result)
     = [("node-1-0", "function", 100, 100);
        ("node-20-0", "event", 100, 100);
        ("node-20-1", "function", 350, 200)].
Proof.
  repeat split.
Qed.
